(** * zoom-analysis: the ingestion layer of [main.py]

    A shallow embedding of [_detect_delimiter], [parse_csv] and
    [build_series], and the properties of the specification that concern
    them.

    Conventions of the model.
    - A Python [str] is a [string]; a character is an [ascii], read as
      the code point 0..255.  The character classes ([str.isspace],
      [str.isalpha], [str.isdigit], [str.lower]) are Python's on that
      range.
    - A Python [int] is a [Z]; a list index is a [nat].
    - A Python [float] is a [spec_float]: an IEEE 754 binary64 value
      as sign, mantissa and exponent.
    - A [dict] is a [gmap]; the defaults of a [defaultdict] are written
      out.
    - A computation that may raise returns a [result].
    - A file is the text that it holds, or nothing when it cannot be
      opened.
    - [float], [int] and [csv.reader] are parameters of the embedding
      (class [Builtins]); the properties hold for every instance. *)

From Stdlib Require Import ZArith QArith Qpower Ascii String List Bool Lia.
From Stdlib Require Import Floats.SpecFloat.
From stdpp Require Import gmap strings list fin_maps pretty sorting.

Local Open Scope string_scope.
Local Open Scope Z_scope.

(** ** Characters and strings *)

Module Char.

Definition code (c : ascii) : N := N_of_ascii c.

Definition between (lo hi : N) (c : ascii) : bool :=
  ((lo <=? code c) && (code c <=? hi))%N.

(** [str.isspace] on code points 0..255: TAB..CR, FS..US, SPACE, NEL
    and NBSP. *)
Definition isspace (c : ascii) : bool :=
  between 9 13 c || between 28 32 c || (code c =? 133)%N || (code c =? 160)%N.

(** [str.isalpha] on code points 0..255: the ASCII letters, the two
    ordinal indicators, the micro sign, and the accented letters
    (everything from 192 on except the multiplication and division
    signs). *)
Definition isalpha (c : ascii) : bool :=
  between 65 90 c || between 97 122 c ||
  (code c =? 170)%N || (code c =? 181)%N || (code c =? 186)%N ||
  between 192 214 c || between 216 246 c || between 248 255 c.

(** [str.isdigit] on code points 0..255: 0-9 and the superscripts
    two, three and one. *)
Definition isdigit (c : ascii) : bool :=
  between 48 57 c || (code c =? 178)%N || (code c =? 179)%N || (code c =? 185)%N.

(** [str.lower] on one code point of 0..255. *)
Definition lower (c : ascii) : ascii :=
  if between 65 90 c || between 192 214 c || between 216 222 c
  then ascii_of_N (code c + 32)
  else c.

Definition tab : ascii := ascii_of_N 9.
Definition lf : ascii := ascii_of_N 10.
Definition cr : ascii := ascii_of_N 13.
Definition comma : ascii := ","%char.
Definition dot : ascii := "."%char.

End Char.

Module Str.

(** [any(p(ch) for ch in s)] *)
Fixpoint any (p : ascii -> bool) (s : string) : bool :=
  match s with
  | EmptyString => false
  | String c s' => p c || any p s'
  end.

(** [c in s] for a one-character [c] *)
Definition contains (c : ascii) (s : string) : bool :=
  any (Ascii.eqb c) s.

(** [s.count(c)] for a one-character [c] *)
Fixpoint count (c : ascii) (s : string) : Z :=
  match s with
  | EmptyString => 0
  | String d s' => (if Ascii.eqb c d then 1 else 0) + count c s'
  end.

Fixpoint lstrip (s : string) : string :=
  match s with
  | EmptyString => EmptyString
  | String c s' => if Char.isspace c then lstrip s' else s
  end.

Fixpoint rstrip (s : string) : string :=
  match s with
  | EmptyString => EmptyString
  | String c s' =>
      match rstrip s' with
      | EmptyString => if Char.isspace c then EmptyString else String c EmptyString
      | r => String c r
      end
  end.

(** [s.strip()] *)
Definition strip (s : string) : string := rstrip (lstrip s).

(** [s.lower()] *)
Fixpoint lower (s : string) : string :=
  match s with
  | EmptyString => EmptyString
  | String c s' => String (Char.lower c) (lower s')
  end.

(** [not s] *)
Definition is_empty (s : string) : bool :=
  match s with EmptyString => true | _ => false end.

End Str.

(** ** Exceptions *)

Inductive exn : Type :=
| OSError
| ValueError
| OverflowError
| TypeError
| CsvError.

Inductive result (A : Type) : Type :=
| Return (a : A)
| Raise (e : exn).
Arguments Return {A} a.
Arguments Raise {A} e.

#[global] Instance result_ret : MRet result := fun A a => Return a.

#[global] Instance result_bind : MBind result := fun A B k r =>
  match r with
  | Return a => k a
  | Raise e => Raise e
  end.

#[global] Instance result_fmap : FMap result := fun A B f r =>
  match r with
  | Return a => Return (f a)
  | Raise e => Raise e
  end.

(** ** Text files

    A path names a file that can be opened, with its decoded text, or
    one that cannot ([None]: [open] raises [OSError]). *)

Definition file : Type := option string.

(** [f.readline()] on a file opened with [newline=""]: the text up to
    and including the next line end (LF, CR or CR LF, untranslated),
    and the text that remains.  At the end of the file the line is
    empty. *)
Fixpoint readline (f : string) : string * string :=
  match f with
  | EmptyString => (EmptyString, EmptyString)
  | String c rest =>
      if Ascii.eqb c Char.lf then (String c EmptyString, rest)
      else if Ascii.eqb c Char.cr then
        match rest with
        | String d rest' =>
            if Ascii.eqb d Char.lf
            then (String c (String d EmptyString), rest')
            else (String c EmptyString, rest)
        | EmptyString => (String c EmptyString, rest)
        end
      else let '(l, r) := readline rest in (String c l, r)
  end.

(** The lines of a text, as iterating over the file yields them. *)
Fixpoint read_all (fuel : nat) (f : string) : list string :=
  match fuel with
  | O => []
  | S fuel' =>
      let '(line, rest) := readline f in
      if Str.is_empty line then [] else line :: read_all fuel' rest
  end.

Definition readlines (f : string) : list string :=
  read_all (String.length f) f.

(** ** [_detect_delimiter] *)

(** The decision taken on one line that is read (lines 19-24): [None]
    when the loop goes on to the next line. *)
Definition sniff_line (line : string) : option ascii :=
  if Str.is_empty (Str.strip line) then None
  else
    let tabs := Str.count Char.tab line in
    let commas := Str.count Char.comma line in
    if negb (tabs =? 0) || negb (commas =? 0)
    then Some (if commas <=? tabs then Char.tab else Char.comma)
    else None.

(** [for _ in range(n): ...] of lines 15-24, on the text that is left
    to read; falling out of the loop returns the comma of line 27. *)
Fixpoint detect_loop (n : nat) (f : string) : ascii :=
  match n with
  | O => Char.comma
  | S n' =>
      let '(line, rest) := readline f in
      if Str.is_empty line then Char.comma
      else match sniff_line line with
           | Some d => d
           | None => detect_loop n' rest
           end
  end.

Definition _detect_delimiter (path : file) : ascii :=
  match path with
  | None => Char.comma
  | Some text => detect_loop 50 text
  end.

(** ** Built-in functions of the interpreter

    [float(s)], [int(s)] and [csv.reader] are not code of [main.py].
    [parse_csv] is embedded over any implementation of them, given by
    an instance of [Builtins]; [Module CPython] below gives the
    instance that the examples are evaluated with.

    - [py_float s], [py_int s]: the value, or [None] when the call
      raises [ValueError].
    - [csv_reader delimiter text]: the rows that
      [csv.reader(f, delimiter=delimiter)] yields on a file with this
      text, in order, and the exception it raises after the last of
      them, if it raises one. *)

Abbreviation row := (list string).

Class Builtins : Type := {
  py_float : string -> option spec_float;
  py_int : string -> option Z;
  csv_reader : ascii -> string -> list row * option exn
}.

(** The signed mantissa of a finite float. *)
Definition signed (s : bool) (m : positive) : Z :=
  if s then Z.neg m else Z.pos m.

(** [int(math.floor(t))]: the largest integer that is not above [t].
    [math.floor] raises [ValueError] on a NaN and [OverflowError] on
    an infinity. *)
Definition math_floor (t : spec_float) : result Z :=
  match t with
  | S754_zero _ => Return 0
  | S754_infinity _ => Raise OverflowError
  | S754_nan => Raise ValueError
  | S754_finite s m e =>
      Return (if 0 <=? e then signed s m * 2 ^ e else signed s m / 2 ^ (- e))
  end.

(** ** [parse_csv] *)

(** [(t, sip, sport, dip, dport)] as indices into a row *)
Abbreviation column_mapping := (nat * nat * nat * nat * nat)%type.

(** An Endpoint Key [(ip, port)] *)
Abbreviation key := (string * Z)%type.

(** [counts]: [dict[(ip, port)][second] -> count] *)
Abbreviation count_table := (gmap (string * Z) (gmap Z Z)).

(** The local variables of [parse_csv] that the loop over the rows
    updates. *)
Record state : Type := State {
  header : option (list string);
  mapping : option column_mapping;
  counts : count_table;
  min_sec : option Z;
  max_sec : option Z
}.

Definition initial : state :=
  {| header := None; mapping := None; counts := ∅;
     min_sec := None; max_sec := None |}.

Definition natural : column_mapping := (0, 1, 2, 3, 4)%nat.
Definition legacy : column_mapping := (0, 3, 1, 4, 2)%nat.

(** The alias lists of lines 71-75. *)
Definition time_aliases : list string :=
  ["frame.time_epoch"; "time_epoch"; "time"; "timestamp"].
Definition sip_aliases : list string :=
  ["ip.src"; "src_ip"; "source_ip"].
Definition sport_aliases : list string :=
  ["udp.srcport"; "tcp.srcport"; "src_port"; "sport"; "source_port"].
Definition dip_aliases : list string :=
  ["ip.dst"; "dst_ip"; "destination_ip"].
Definition dport_aliases : list string :=
  ["udp.dstport"; "tcp.dstport"; "dst_port"; "dport"; "destination_port"].

(** [looks_like_ip] (lines 45-47) *)
Definition looks_like_ip (s : string) : bool :=
  let s := Str.strip s in
  Str.contains Char.dot s && Str.any Char.isdigit s.

(** [any(any(c.isalpha() for c in cell) for cell in row)] (line 61) *)
Definition has_alpha (r : row) : bool :=
  existsb (Str.any Char.isalpha) r.

(** [header.index(name)]: the position of the first field equal to
    [name]; [None] when [name in header] is false. *)
Fixpoint index (name : string) (h : list string) : option nat :=
  match h with
  | [] => None
  | x :: h' => if String.eqb x name then Some O else S <$> index name h'
  end.

(** [find] (lines 65-69) *)
Fixpoint find (h : list string) (cands : list string) : option nat :=
  match cands with
  | [] => None
  | name :: cands' =>
      match index name h with
      | Some i => Some i
      | None => find h cands'
      end
  end.

(** Lines 63-81: the header names and the mapping they give. *)
Definition header_names (r : row) : list string :=
  map (fun c => Str.lower (Str.strip c)) r.

Definition header_mapping (h : list string) : column_mapping :=
  match find h time_aliases, find h sip_aliases, find h sport_aliases,
        find h dip_aliases, find h dport_aliases with
  | Some idx_t, Some idx_sip, Some idx_sport, Some idx_dip, Some idx_dport =>
      (idx_t, idx_sip, idx_sport, idx_dip, idx_dport)
  | _, _, _, _, _ => natural
  end.

(** Lines 89-92: the mapping that a first row without letters gives.
    The row has five fields or more, so [row[1]] exists. *)
Definition headerless_mapping (r : row) : column_mapping :=
  if looks_like_ip (nth 1 r EmptyString) then natural else legacy.

(** [counts[key][sec] += 1] on the [defaultdict] of [defaultdict(int)] *)
Definition incr (c : count_table) (k : key) (sec : Z) : count_table :=
  let inner := default ∅ (c !! k) in
  <[k := <[sec := default 0 (inner !! sec) + 1]> inner]> c.

(** Lines 116-119 *)
Definition lower_min (cur : option Z) (sec : Z) : option Z :=
  match cur with
  | None => Some sec
  | Some m => if sec <? m then Some sec else Some m
  end.

Definition raise_max (cur : option Z) (sec : Z) : option Z :=
  match cur with
  | None => Some sec
  | Some m => if m <? sec then Some sec else Some m
  end.

Section ParseCsv.

Context {B : Builtins}.

(** The [try] block of lines 95-103: the five values, or [None] when
    an [IndexError] or a [ValueError] is caught. *)
Definition parse_fields (m : column_mapping) (r : row)
  : option (spec_float * string * Z * string * Z) :=
  let '(i_t, i_sip, i_sport, i_dip, i_dport) := m in
  t ← r !! i_t ≫= py_float;
  sip ← Str.strip <$> r !! i_sip;
  sport ← r !! i_sport ≫= py_int;
  dip ← Str.strip <$> r !! i_dip;
  dport ← r !! i_dport ≫= py_int;
  Some (t, sip, sport, dip, dport).

(** Lines 106-111: the key of a row, or [None] when the row is left
    out. *)
Definition endpoint_key (target_ip sip : string) (sport : Z)
    (dip : string) (dport : Z) : option key :=
  if String.eqb sip target_ip then Some (target_ip, sport)
  else if String.eqb dip target_ip then Some (target_ip, dport)
  else None.

(** Lines 113-119 *)
Definition record_packet (st : state) (k : key) (t : spec_float)
  : result state :=
  sec ← math_floor t;
  mret {| header := header st; mapping := mapping st;
          counts := incr (counts st) k sec;
          min_sec := lower_min (min_sec st) sec;
          max_sec := raise_max (max_sec st) sec |}.

(** Lines 94-119, for a row that is parsed as data.  Subscripting
    the mapping while it is still [None] raises [TypeError]. *)
Definition parse_row (target_ip : string) (st : state) (r : row)
  : result state :=
  match mapping st with
  | None => Raise TypeError
  | Some m =>
      match parse_fields m r with
      | None => Return st
      | Some (t, sip, sport, dip, dport) =>
          match endpoint_key target_ip sip sport dip dport with
          | None => Return st
          | Some k => record_packet st k t
          end
      end
  end.

(** The body of the loop over the rows (lines 56-119). *)
Definition loop_body (target_ip : string) (st : state) (r : row)
  : result state :=
  if (length r <? 5)%nat then Return st
  else
    match header st with
    | None =>
        if has_alpha r then
          let h := header_names r in
          Return {| header := Some h;
                    mapping := Some (header_mapping h);
                    counts := counts st;
                    min_sec := min_sec st; max_sec := max_sec st |}
        else
          parse_row target_ip
            {| header := Some [];
               mapping := Some (headerless_mapping r);
               counts := counts st;
               min_sec := min_sec st; max_sec := max_sec st |} r
    | Some _ => parse_row target_ip st r
    end.

(** [for row in reader: ...] *)
Fixpoint loop (target_ip : string) (st : state) (rows : list row)
  : result state :=
  match rows with
  | [] => Return st
  | r :: rows' => st' ← loop_body target_ip st r; loop target_ip st' rows'
  end.

(** Lines 121-124 *)
Definition observed_range (st : state) : Z * Z :=
  match min_sec st, max_sec st with
  | Some lo, Some hi => (lo, hi)
  | _, _ => (0, 0)
  end.

(** The loop and the final lines on the rows that the reader
    yields. *)
Definition parse_rows (target_ip : string) (rows : list row)
  : result (count_table * Z * Z) :=
  st ← loop target_ip initial rows;
  let '(lo, hi) := observed_range st in
  mret (counts st, lo, hi).

Definition parse_csv (path : file) (target_ip : string)
  : result (count_table * Z * Z) :=
  let delimiter := _detect_delimiter path in
  match path with
  | None => Raise OSError
  | Some text =>
      let '(rows, failure) := csv_reader delimiter text in
      out ← parse_rows target_ip rows;
      match failure with
      | Some e => Raise e
      | None => Return out
      end
  end.

End ParseCsv.

(** ** [build_series] *)

(** [list(range(lo, hi))] *)
Definition py_range (lo hi : Z) : list Z := seqZ lo (hi - lo).

Definition build_series (counts_for_key : gmap Z Z) (min_sec max_sec : Z)
  : list Z * list Z :=
  let xs := py_range min_sec (max_sec + 1) in
  let ys := map (fun s => default 0 (counts_for_key !! s)) xs in
  (xs, ys).

(** ** [plot_counts] and [main]

    Paths and the file system are parameters of the embedding, as the
    built-in functions are: a type of paths with what the code does
    with a path.  The calls that draw, save and print are recorded, in
    order, as a list of events; the arguments that are constants of the
    code ([figsize], [where], [dpi], the legend and grid options) are
    left out of the events. *)

Class FileSystem : Type := {
  path_t : Type;
  (** [Path(s)] *)
  Path : string -> path_t;
  (** [str(p)], as an f-string formats a path *)
  path_str : path_t -> string;
  (** [p.parent] *)
  path_parent : path_t -> path_t;
  (** [p.exists()] *)
  path_exists : path_t -> bool;
  (** the file that [p.open("r", newline="")] reads *)
  path_open : path_t -> file
}.

Inductive event {FS : FileSystem} : Type :=
| Print (line : string)
| Subplots
| Step (xs ys : list Z) (label : string)
| SetTitle (title : string)
| SetYLabel (label : string)
| SetXLabel (label : string)
| Grid
| Legend
| TightLayout
| Mkdir (p : path_t)
| SaveFig (p : path_t)
| Show.

(** [str(n)] of an [int], as an f-string formats it *)
Definition str_int (n : Z) : string := pretty n.

(** [sorted(keys, key=lambda k: k[1])].  The sort is stable: keys with
    the same port stay in the order they come in. *)
Fixpoint insert_by_port (k : key) (sorted : list key) : list key :=
  match sorted with
  | [] => [k]
  | k' :: sorted' =>
      if snd k <=? snd k' then k :: sorted
      else k' :: insert_by_port k sorted'
  end.

Definition sorted_by_port (keys : list key) : list key :=
  foldr insert_by_port [] keys.

(** A [dict] whose order matters, here the table that is plotted, is
    the list of its items in the order of insertion. *)
Abbreviation items := (list (key * gmap Z Z)).

(** [counts[key]] for a key of the dict *)
Definition dict_get (counts : items) (k : key) : gmap Z Z :=
  default ∅ ((list_to_map counts : count_table) !! k).

(** Lines 135-136 *)
Definition select_port (port_filter : option Z) (counts : items) : items :=
  match port_filter with
  | Some p => filter (fun kv => snd (fst kv) = p) counts
  | None => counts
  end.

(** Lines 139-142 *)
Definition no_data_notice (target_ip : string) (port_filter : option Z)
  : string :=
  match port_filter with
  | None => "No packets found for " ++ target_ip ++ ". Nothing to plot."
  | Some p =>
      "No packets found for " ++ target_ip ++ " on port " ++ str_int p
      ++ ". Nothing to plot."
  end.

(** Lines 156-161 *)
Definition plot_title (target_ip : string) (keys : list key) : string :=
  match keys with
  | [(ip, port)] => "Packets/sec for " ++ ip ++ ":" ++ str_int port
  | _ => "Packets/sec by port for " ++ target_ip
  end.

Section Plot.

Context {FS : FileSystem}.

(** Lines 151-154, for one key *)
Definition plot_step (counts : items) (min_sec max_sec : Z) (k : key)
  : event :=
  let xs_global := py_range min_sec (max_sec + 1) in
  let ys := map (fun s => default 0 (dict_get counts k !! s)) xs_global in
  Step xs_global ys ("port " ++ str_int (snd k)).

(** Lines 169-174 *)
Definition save_or_show (save_path : option path_t) : list event :=
  match save_path with
  | Some p =>
      [Mkdir (path_parent p); SaveFig p;
       Print ("Saved figure to " ++ path_str p)]
  | None => [Show]
  end.

Definition plot_counts (counts : items) (min_sec max_sec : Z)
    (target_ip : string) (save_path : option path_t)
    (port_filter : option Z) : list event :=
  let counts := select_port port_filter counts in
  match counts with
  | [] => [Print (no_data_notice target_ip port_filter)]
  | _ :: _ =>
      let keys := sorted_by_port counts.*1 in
      (Subplots :: map (plot_step counts min_sec max_sec) keys ++
       [SetTitle (plot_title target_ip keys); SetYLabel "pps";
        SetXLabel "seconds"; Grid; Legend; TightLayout] ++
       save_or_show save_path)%list
  end.

(** The local variables of [main] that the arguments set. *)
Record options : Type := Options {
  target_ip : string;
  csv_path : path_t;
  save_path : option path_t;
  port_filter : option Z
}.

(** Lines 179-183 *)
Definition defaults : options :=
  {| target_ip := "192.168.11.6"; csv_path := Path "data/tshark.csv";
     save_path := None; port_filter := None |}.

(** [arg.startswith("-")] *)
Definition is_option (arg : string) : bool :=
  match arg with
  | String "-" _ => true
  | _ => false
  end.

Context {B : Builtins}.

(** The loop over the arguments (lines 188-208), on the arguments from
    index [i] on: the options when the loop ends, or the line that is
    printed before [main] returns. *)
Fixpoint parse_args (args : list string) (o : options) : options + string :=
  match args with
  | [] => inl o
  | arg :: rest =>
      match rest with
      | v :: rest' =>
          if String.eqb arg "--ip" then
            parse_args rest'
              {| target_ip := v; csv_path := csv_path o;
                 save_path := save_path o; port_filter := port_filter o |}
          else if String.eqb arg "--save" then
            parse_args rest'
              {| target_ip := target_ip o; csv_path := csv_path o;
                 save_path := Some (Path v); port_filter := port_filter o |}
          else if String.eqb arg "--port" then
            match py_int v with
            | Some p =>
                parse_args rest'
                  {| target_ip := target_ip o; csv_path := csv_path o;
                     save_path := save_path o; port_filter := Some p |}
            | None => inr "--port expects an integer"
            end
          else if is_option arg then inr ("Unknown option: " ++ arg)
          else
            parse_args rest
              {| target_ip := target_ip o; csv_path := Path arg;
                 save_path := save_path o; port_filter := port_filter o |}
      | [] =>
          if is_option arg then inr ("Unknown option: " ++ arg)
          else
            parse_args rest
              {| target_ip := target_ip o; csv_path := Path arg;
                 save_path := save_path o; port_filter := port_filter o |}
      end
  end.

(** [main], on [sys.argv[1:]]: the events, or the exception that
    [parse_csv] raises.  The table goes to [plot_counts] as its items;
    its keys have different ports, so their order does not matter. *)
Definition main (args : list string) : result (list event) :=
  match parse_args args defaults with
  | inr line => Return [Print line]
  | inl o =>
      if negb (path_exists (csv_path o)) then
        Return [Print ("CSV not found: " ++ path_str (csv_path o))]
      else
        out ← parse_csv (path_open (csv_path o)) (target_ip o);
        let '(counts, min_sec, max_sec) := out in
        Return (plot_counts (map_to_list counts) min_sec max_sec
                  (target_ip o) (save_path o) (port_filter o))
  end.

(** The [Step] events of a list of events: what is drawn. *)
Definition steps (trace : list event) : list (list Z * list Z * string) :=
  omap (fun e => match e with
                 | Step xs ys label => Some (xs, ys, label)
                 | _ => None
                 end) trace.

End Plot.

(** ** The built-in functions of CPython

    The instance of [Builtins] that the examples are evaluated with:
    [int] and [float] on decimal text, and the reader of the [csv]
    module in its default dialect (double quote as quote character, doubled,
    not strict). *)

Module CPython.

Definition quote : ascii := ascii_of_N 34.
Definition underscore : ascii := "_"%char.

(** White space that [int] and [float] skip at both ends. *)
Definition numspace (c : ascii) : bool :=
  Char.between 9 13 c || (Char.code c =? 32)%N ||
  (Char.code c =? 133)%N || (Char.code c =? 160)%N.

Fixpoint skip_left (s : string) : string :=
  match s with
  | String c s' => if numspace c then skip_left s' else s
  | EmptyString => EmptyString
  end.

Fixpoint skip_right (s : string) : string :=
  match s with
  | EmptyString => EmptyString
  | String c s' =>
      match skip_right s' with
      | EmptyString => if numspace c then EmptyString else String c EmptyString
      | r => String c r
      end
  end.

Definition digit_value (c : ascii) : option Z :=
  if Char.between 48 57 c then Some (Z.of_N (Char.code c) - 48) else None.

(** The digits that follow a digit: digits, each possibly after one
    underscore. *)
Fixpoint more_digits (s : string) : list Z * string :=
  match s with
  | EmptyString => ([], s)
  | String c s' =>
      match digit_value c with
      | Some d => let '(ds, r) := more_digits s' in (d :: ds, r)
      | None =>
          if Ascii.eqb c underscore then
            match s' with
            | String c2 s'' =>
                match digit_value c2 with
                | Some d => let '(ds, r) := more_digits s'' in (d :: ds, r)
                | None => ([], s)
                end
            | EmptyString => ([], s)
            end
          else ([], s)
      end
  end.

(** The longest run of digits at the start of [s]; empty when [s] does
    not start with a digit. *)
Definition digit_run (s : string) : list Z * string :=
  match s with
  | String c s' =>
      match digit_value c with
      | Some d => let '(ds, r) := more_digits s' in (d :: ds, r)
      | None => ([], s)
      end
  | EmptyString => ([], s)
  end.

Definition number_of (ds : list Z) : Z :=
  fold_left (fun acc d => 10 * acc + d) ds 0.

Definition sign_of (s : string) : bool * string :=
  match s with
  | String "-" s' => (true, s')
  | String "+" s' => (false, s')
  | _ => (false, s)
  end.

(** [sys.int_info.default_max_str_digits] *)
Definition max_str_digits : Z := 4300.

Definition int (s : string) : option Z :=
  let '(neg, body) := sign_of (skip_right (skip_left s)) in
  match digit_run body with
  | (d :: ds, EmptyString) =>
      if max_str_digits <? Z.of_nat (length (d :: ds)) then None
      else Some (if neg then - number_of (d :: ds) else number_of (d :: ds))
  | _ => None
  end.

Definition prec : Z := 53.
Definition emax : Z := 1024.

(** The binary64 value nearest to [±m * 10^e] (ties to even). *)
Definition decimal (neg : bool) (m e : Z) : spec_float :=
  match m with
  | Zpos p =>
      if 0 <=? e
      then binary_normalize prec emax ((if neg then Z.neg p else Z.pos p) * 10 ^ e) 0 neg
      else SFdiv prec emax (S754_finite neg p 0)
                           (S754_finite false (Z.to_pos (10 ^ (- e))) 0)
  | _ => S754_zero neg
  end.

(** The exponent part, when [s] has one: its value and what follows. *)
Definition exponent (s : string) : option (Z * string) :=
  match s with
  | String c s' =>
      if Ascii.eqb c "e" || Ascii.eqb c "E" then
        let '(neg, body) := sign_of s' in
        match digit_run body with
        | (d :: ds, r) =>
            Some (if neg then - number_of (d :: ds) else number_of (d :: ds), r)
        | _ => None
        end
      else Some (0, s)
  | EmptyString => Some (0, s)
  end.

Definition float (s : string) : option spec_float :=
  let '(neg, body) := sign_of (skip_right (skip_left s)) in
  let word := Str.lower body in
  if String.eqb word "inf" || String.eqb word "infinity" then Some (S754_infinity neg)
  else if String.eqb word "nan" then Some S754_nan
  else
    let '(ip, r) := digit_run body in
    let '(fp, r) :=
      match r with
      | String "." r' => digit_run r'
      | _ => ([], r)
      end in
    match (ip ++ fp)%list with
    | [] => None
    | ds =>
        match exponent r with
        | Some (e, EmptyString) =>
            Some (decimal neg (number_of ds) (e - Z.of_nat (length fp)))
        | _ => None
        end
    end.

(** The states of the reader. *)
Inductive parser_state : Type :=
| START_RECORD
| START_FIELD
| IN_FIELD
| IN_QUOTED_FIELD
| QUOTE_IN_QUOTED_FIELD
| EAT_CRNL.

(** The record that is being read: the fields that are complete and
    the characters of the field that is open, both latest first. *)
Record reader : Type := Reader {
  r_state : parser_state;
  r_fields : list string;
  r_field : list ascii
}.

(** [csv.field_size_limit()] *)
Definition field_limit : Z := 131072.

Definition add_char (c : ascii) (r : reader) : result reader :=
  if Z.of_nat (length (r_field r)) <? field_limit
  then Return {| r_state := r_state r; r_fields := r_fields r;
                 r_field := c :: r_field r |}
  else Raise CsvError.

Definition save_field (r : reader) : reader :=
  {| r_state := r_state r;
     r_fields := string_of_list_ascii (rev (r_field r)) :: r_fields r;
     r_field := [] |}.

Definition goto (s : parser_state) (r : reader) : reader :=
  {| r_state := s; r_fields := r_fields r; r_field := r_field r |}.

Definition is_newline (c : ascii) : bool :=
  Ascii.eqb c Char.lf || Ascii.eqb c Char.cr.

(** One character of a line ([Some c]) or the end of the line
    ([None]). *)
Definition process_char (delimiter : ascii) (r : reader) (c : option ascii)
  : result reader :=
  let start_field :=
    match c with
    | None => Return (goto START_RECORD (save_field r))
    | Some c =>
        if is_newline c then Return (goto EAT_CRNL (save_field r))
        else if Ascii.eqb c quote then Return (goto IN_QUOTED_FIELD r)
        else if Ascii.eqb c delimiter then Return (goto START_FIELD (save_field r))
        else goto IN_FIELD <$> add_char c r
    end in
  match r_state r with
  | START_RECORD =>
      match c with
      | None => Return r
      | Some c' => if is_newline c' then Return (goto EAT_CRNL r) else start_field
      end
  | START_FIELD => start_field
  | IN_FIELD =>
      match c with
      | None => Return (goto START_RECORD (save_field r))
      | Some c =>
          if is_newline c then Return (goto EAT_CRNL (save_field r))
          else if Ascii.eqb c delimiter then Return (goto START_FIELD (save_field r))
          else add_char c r
      end
  | IN_QUOTED_FIELD =>
      match c with
      | None => Return r
      | Some c =>
          if Ascii.eqb c quote then Return (goto QUOTE_IN_QUOTED_FIELD r)
          else add_char c r
      end
  | QUOTE_IN_QUOTED_FIELD =>
      match c with
      | None => Return (goto START_RECORD (save_field r))
      | Some c =>
          if Ascii.eqb c quote then goto IN_QUOTED_FIELD <$> add_char c r
          else if Ascii.eqb c delimiter then Return (goto START_FIELD (save_field r))
          else if is_newline c then Return (goto EAT_CRNL (save_field r))
          else goto IN_FIELD <$> add_char c r
      end
  | EAT_CRNL =>
      match c with
      | None => Return (goto START_RECORD r)
      | Some c => if is_newline c then Return r else Raise CsvError
      end
  end.

Fixpoint process_line (delimiter : ascii) (r : reader) (line : string)
  : result reader :=
  match line with
  | EmptyString => process_char delimiter r None
  | String c line' =>
      r' ← process_char delimiter r (Some c);
      process_line delimiter r' line'
  end.

Definition fresh : reader :=
  {| r_state := START_RECORD; r_fields := []; r_field := [] |}.

(** The rows read from the lines that are left, with the record that
    is open. *)
Fixpoint read_rows (delimiter : ascii) (r : reader) (lines : list string)
  : list row * option exn :=
  match lines with
  | [] =>
      match r_field r, r_state r with
      | [], START_RECORD | [], START_FIELD | [], IN_FIELD
      | [], QUOTE_IN_QUOTED_FIELD | [], EAT_CRNL => ([], None)
      | _, _ => ([rev (r_fields (save_field r))], None)
      end
  | line :: lines' =>
      match process_line delimiter r line with
      | Raise e => ([], Some e)
      | Return r' =>
          match r_state r' with
          | START_RECORD =>
              let '(rows, failure) := read_rows delimiter fresh lines' in
              (rev (r_fields r') :: rows, failure)
          | _ => read_rows delimiter r' lines'
          end
      end
  end.

Definition reader_rows (delimiter : ascii) (text : string)
  : list row * option exn :=
  read_rows delimiter fresh (readlines text).

#[export] Instance builtins : Builtins :=
  {| py_float := float; py_int := int; csv_reader := reader_rows |}.

End CPython.


(** ** Notions that the properties are stated with *)

(** *** Delimiter detection *)

(** A line is blank when [line.strip()] is empty. *)
Definition blank (line : string) : bool := Str.is_empty (Str.strip line).

(** The delimiter that the counts of a line call for, when the TAB
    count or the COMMA count of the line is not zero. *)
Definition signal (line : string) : option ascii :=
  let tabs := Str.count Char.tab line in
  let commas := Str.count Char.comma line in
  if (tabs =? 0) && (commas =? 0) then None
  else Some (if tabs >=? commas then Char.tab else Char.comma).

(** The decision on the first line of [ls] that has a signal; COMMA
    when there is none. *)
Definition decide_on (ls : list string) : ascii :=
  default Char.comma (head (omap signal ls)).

(** Delimiter detection where blank lines do not count toward the cap:
    the first 50 lines that are not blank are inspected. *)
Definition detect_skipping_blanks_uncounted (path : file) : ascii :=
  match path with
  | None => Char.comma
  | Some text =>
      decide_on (take 50 (filter (fun l => blank l = false) (readlines text)))
  end.

(** Delimiter detection where every line read counts toward the cap:
    of the first 50 lines, those that are not blank are inspected. *)
Definition detect_within_first_lines (path : file) : ascii :=
  match path with
  | None => Char.comma
  | Some text =>
      decide_on (filter (fun l => blank l = false) (take 50 (readlines text)))
  end.

(** *** Alias resolution *)

(** [i] is the column that the alias list [cands] resolves to in the
    header [h]: the first position of the first alias that [h] has. *)
Definition resolves (h cands : list string) (i : nat) : Prop :=
  exists before name after,
    cands = (before ++ name :: after)%list /\
    Forall (fun a => a ∉ h) before /\
    h !! i = Some name /\
    forall j, (j < i)%nat -> h !! j ≠ Some name.

(** No alias of [cands] is in the header. *)
Definition unresolved (h cands : list string) : Prop :=
  Forall (fun a => a ∉ h) cands.

(** *** The rows of a pass *)

(** The state once the layout is decided with mapping [m], with the
    counts and the range of [st]. *)
Definition decided (h : list string) (m : column_mapping) (st : state) : state :=
  {| header := Some h; mapping := Some m; counts := counts st;
     min_sec := min_sec st; max_sec := max_sec st |}.

(** In every state that the loop reaches, the mapping is set when the
    header is. *)
Definition layout_ok (st : state) : Prop :=
  is_Some (header st) -> is_Some (mapping st).

(** The mapping under which a row of five fields or more is parsed as
    data in state [st]; [None] for the row that is taken as header. *)
Definition mapping_in_effect (st : state) (r : row) : option column_mapping :=
  match header st with
  | None => if has_alpha r then None else Some (headerless_mapping r)
  | Some _ => mapping st
  end.

(** The layout after a row: the header and the mapping that the row
    leaves behind, the counts and the range untouched. *)
Definition next_layout (st : state) (r : row) : state :=
  if (length r <? 5)%nat then st
  else
    match header st with
    | None =>
        if has_alpha r
        then decided (header_names r) (header_mapping (header_names r)) st
        else decided [] (headerless_mapping r) st
    | Some _ => st
    end.

(** Some index of the mapping is not an index of the row. *)
Definition out_of_range (m : column_mapping) (r : row) : Prop :=
  let '(i_t, i_sip, i_sport, i_dip, i_dport) := m in
  (length r <= i_t \/ length r <= i_sip \/ length r <= i_sport \/
   length r <= i_dip \/ length r <= i_dport)%nat.

(** The count stored for a key at a second, 0 when there is none. *)
Definition count_at (c : count_table) (k : key) (sec : Z) : Z :=
  default 0 (c !! k ≫= fun inner => inner !! sec).

(** The seconds that have an entry in the table. *)
Definition stored (c : count_table) (sec : Z) : Prop :=
  exists k inner, c !! k = Some inner /\ is_Some (inner !! sec).

(** The table after counting the events [evs] one by one. *)
Definition tally (c : count_table) (evs : list (key * Z)) : count_table :=
  foldl (fun c e => incr c (fst e) (snd e)) c evs.

Definition sum_list (l : list Z) : Z := foldr Z.add 0 l.

(** The sum of the counts stored for one key. *)
Definition raw_total (inner : gmap Z Z) : Z :=
  map_fold (fun _ v acc => v + acc) 0 inner.

(** The rational number that a finite float stands for. *)
Definition value (t : spec_float) : Q :=
  match t with
  | S754_finite s m e => (inject_Z (signed s m) * Qpower 2 e)%Q
  | _ => 0%Q
  end.

Definition finite (t : spec_float) : Prop :=
  match t with
  | S754_finite _ _ _ | S754_zero _ => True
  | _ => False
  end.

Section Pass.

Context {B : Builtins}.

(** A row is malformed in state [st]: it has fewer than five fields,
    or its mapped timestamp is not a float, or one of its mapped ports
    is not an integer. *)
Definition malformed (st : state) (r : row) : Prop :=
  (length r < 5)%nat \/
  exists i_t i_sip i_sport i_dip i_dport,
    mapping_in_effect st r = Some (i_t, i_sip, i_sport, i_dip, i_dport) /\
    ((exists s, r !! i_t = Some s /\ py_float s = None) \/
     (exists s, r !! i_sport = Some s /\ py_int s = None) \/
     (exists s, r !! i_dport = Some s /\ py_int s = None)).

(** The key and the timestamp with which a row passes the endpoint
    filter in state [st]; [None] when it does not reach the filter or
    does not pass it. *)
Definition passes (target_ip : string) (st : state) (r : row)
  : option (key * spec_float) :=
  if (length r <? 5)%nat then None
  else
    m ← mapping_in_effect st r;
    '(t, sip, sport, dip, dport) ← parse_fields m r;
    k ← endpoint_key target_ip sip sport dip dport;
    Some (k, t).

(** The rows of a pass that pass the endpoint filter, in order, each
    as its key and timestamp. *)
Fixpoint accepted (target_ip : string) (st : state) (rows : list row)
  : list (key * spec_float) :=
  match rows with
  | [] => []
  | r :: rows' =>
      (match passes target_ip st r with
       | Some e => [e]
       | None => []
       end ++ accepted target_ip (next_layout st r) rows')%list
  end.

(** An accepted row as the key and the second that it is counted
    under; [None] when the timestamp has no floor. *)
Definition floor_of (e : key * spec_float) : option (key * Z) :=
  match math_floor (snd e) with
  | Return sec => Some (fst e, sec)
  | Raise _ => None
  end.

(** The accepted rows of a pass that starts in state [st], each as its
    key and second. *)
Definition events (target_ip : string) (st : state) (rows : list row)
  : list (key * Z) :=
  omap floor_of (accepted target_ip st rows).

(** The seconds of the accepted rows of a whole pass. *)
Definition seconds (target_ip : string) (rows : list row) : list Z :=
  (events target_ip initial rows).*2.

End Pass.

(** Every key of the table has a second stored, and every stored
    count is at least 1. *)
Definition positive_counts (c : count_table) : Prop :=
  forall k inner, c !! k = Some inner ->
    inner <> ∅ /\ forall s v, inner !! s = Some v -> 1 <= v.

(** The number of events that fall on key [k] and second [s]. *)
Definition occurrences (evs : list (key * Z)) (k : key) (s : Z) : Z :=
  Z.of_nat (length (filter (fun e => e = (k, s)) evs)).

(** Keys in the order of their ports. *)
Definition port_le (a b : key) : Prop := snd a <= snd b.

(** What [plot_counts] draws for a key with the counts [inner]: the
    series of [build_series] and the label of the port. *)
Definition series_of (min_sec max_sec : Z) (k : key) (inner : gmap Z Z)
  : list Z * list Z * string :=
  (fst (build_series inner min_sec max_sec),
   snd (build_series inner min_sec max_sec),
   "port " ++ str_int (snd k)).

(** ** Inputs of the examples *)

(** Fifty empty lines, then one line with a TAB. *)
Definition late_tab_text : string :=
  string_of_list_ascii (repeat Char.lf 50) ++ String "a" (String Char.tab "b").

(** A row in the legacy order [t, sport, dport, sip, dip]. *)
Definition legacy_row : row := ["100.0"; "1234"; "80"; "1.2.3.4"; "5.6.7.8"].

(** The same packet in the natural order [t, sip, sport, dip, dport]. *)
Definition natural_row : row := ["100.0"; "1.2.3.4"; "1234"; "5.6.7.8"; "80"].

(** The header that tshark writes. *)
Definition tshark_header : row :=
  ["frame.time_epoch"; "ip.src"; "udp.srcport"; "ip.dst"; "udp.dstport"].

(** The same names in another order. *)
Definition permuted_header : row :=
  ["ip.src"; "udp.srcport"; "ip.dst"; "udp.dstport"; "frame.time_epoch"].

(** A header of six columns, the timestamp in the last one. *)
Definition wide_header : row :=
  ["frame.number"; "ip.src"; "udp.srcport"; "ip.dst"; "udp.dstport";
   "frame.time_epoch"].

(** A row whose two addresses are the target, with different ports. *)
Definition loopback_row : row :=
  ["1.0"; "1.2.3.4"; "1111"; "1.2.3.4"; "2222"].

(** A row with a timestamp that is not a number. *)
Definition bad_time_row : row :=
  ["abc"; "1.2.3.4"; "1234"; "5.6.7.8"; "80"].

(** A row with a negative timestamp. *)
Definition negative_time_row : row :=
  ["-0.5"; "1.2.3.4"; "1234"; "5.6.7.8"; "80"].

(** A row between two other hosts. *)
Definition foreign_row : row :=
  ["100.0"; "9.9.9.9"; "1234"; "5.6.7.8"; "80"].

(** Two packets of the target on port 1234, one sent at second 100 and
    one received at second 102. *)
Definition two_packets_text : string :=
  "100.5,1.2.3.4,1234,5.6.7.8,80" ++ String Char.lf
  "102.25,5.6.7.8,80,1.2.3.4,1234" ++ String Char.lf EmptyString.

(** A file with the tshark header and one packet between other
    hosts. *)
Definition foreign_text : string :=
  "frame.time_epoch,ip.src,udp.srcport,ip.dst,udp.dstport" ++ String Char.lf
  "100.0,9.9.9.9,1234,5.6.7.8,80" ++ String Char.lf EmptyString.

(** A row with a timestamp that is not a number of seconds. *)
Definition nan_row : row := ["nan"; "1.2.3.4"; "1234"; "5.6.7.8"; "80"].

(** A later packet of the target, received on port 1234. *)
Definition later_row : row := ["102.25"; "5.6.7.8"; "80"; "1.2.3.4"; "1234"].

(** The items of a table with two ports, the larger port first, and
    the same items the other way round. *)
Definition two_port_items : items :=
  [(("1.2.3.4", 443), {[ 100 := 2 ]}); (("1.2.3.4", 80), {[ 101 := 1 ]})].

Definition two_port_items_reversed : items :=
  [(("1.2.3.4", 80), {[ 101 := 1 ]}); (("1.2.3.4", 443), {[ 100 := 2 ]})].

(** ** A file system for the examples

    A path is its text.  Two files exist: [capture.csv] holds the two
    packets, [quiet.csv] the packet between other hosts. *)

Module Files.

(** The text before the last slash of a path, when it has a slash. *)
Fixpoint dirname (p : string) : option string :=
  match p with
  | EmptyString => None
  | String c p' =>
      match dirname p' with
      | Some d => Some (String c d)
      | None => if Ascii.eqb c "/" then Some EmptyString else None
      end
  end.

Definition contents (p : string) : file :=
  if String.eqb p "capture.csv" then Some two_packets_text
  else if String.eqb p "quiet.csv" then Some foreign_text
  else None.

#[export] Instance files : FileSystem :=
  {| path_t := string;
     Path := fun s => s;
     path_str := fun p => p;
     path_parent := fun p => default "." (dirname p);
     path_exists := fun p => String.eqb p "capture.csv" || String.eqb p "quiet.csv";
     path_open := contents |}.

End Files.

(** * Properties *)

(** ** Lines and delimiter detection *)

Lemma readline_shorter c f :
  (String.length (snd (readline (String c f))) <= String.length f)%nat
  /\ fst (readline (String c f)) <> EmptyString.
Proof.
  revert c. induction f as [|d f IH]; intros c.
  - cbn [readline]. repeat case_match; cbn; split; first [lia | discriminate].
  - specialize (IH d). cbn [readline] in IH |- *.
    repeat case_match; simplify_eq; cbn in *; split;
      first [lia | discriminate].
Qed.

Lemma read_all_fuel n m f :
  (String.length f <= n)%nat -> (String.length f <= m)%nat ->
  read_all n f = read_all m f.
Proof.
  revert m f. induction n as [|n IH]; intros m f Hn Hm.
  - destruct f; [now destruct m | cbn in Hn; lia].
  - destruct f as [|c f]; [now destruct m|].
    destruct m as [|m]; [cbn in Hm; lia|].
    cbn [String.length read_all] in *.
    destruct (readline_shorter c f) as [Hlen Hne].
    destruct (readline (String c f)) as [line rest]. cbn in Hlen, Hne.
    destruct (Str.is_empty line); [reflexivity|].
    f_equal. apply IH; lia.
Qed.

Lemma read_all_enough n f :
  (String.length f <= n)%nat -> read_all n f = read_all (String.length f) f.
Proof. intros Hn. now apply read_all_fuel. Qed.

(** Reading all lines is reading one line and then the others. *)
Lemma readlines_step f :
  readlines f =
  let '(line, rest) := readline f in
  if Str.is_empty line then [] else line :: readlines rest.
Proof.
  unfold readlines. destruct f as [|c f]; [reflexivity|].
  cbn [String.length read_all].
  destruct (readline_shorter c f) as [Hlen _].
  destruct (readline (String c f)) as [line rest]. cbn in Hlen.
  destruct (Str.is_empty line); [reflexivity|].
  now rewrite (read_all_enough _ _ Hlen).
Qed.

Lemma sniff_line_signal line :
  sniff_line line = if blank line then None else signal line.
Proof.
  unfold sniff_line, blank, signal.
  destruct (Str.is_empty (Str.strip line)); [reflexivity|].
  rewrite Z.geb_leb.
  destruct (Str.count Char.tab line =? 0), (Str.count Char.comma line =? 0);
    reflexivity.
Qed.

Lemma decide_on_cons line ls :
  decide_on (line :: ls) =
  match signal line with Some d => d | None => decide_on ls end.
Proof. unfold decide_on. cbn. now destruct (signal line). Qed.

Lemma detect_loop_lines n f :
  detect_loop n f =
  decide_on (filter (fun l => blank l = false) (take n (readlines f))).
Proof.
  revert f. induction n as [|n IH]; intros f; [reflexivity|].
  cbn [detect_loop]. rewrite readlines_step.
  destruct (readline f) as [line rest].
  destruct (Str.is_empty line); [reflexivity|].
  cbn [take]. rewrite filter_cons, sniff_line_signal.
  destruct (decide (blank line = false)) as [Hb|Hb].
  - rewrite Hb, decide_on_cons. destruct (signal line); [reflexivity | apply IH].
  - apply not_false_is_true in Hb. rewrite Hb. apply IH.
Qed.

(** What the loop of lines 15-24 computes: every line that is read
    uses up one of the 50 iterations, blank or not.  [_detect_delimiter]
    looks at the first 50 lines of the input, passes over those that
    are blank, and decides on the first of the others whose TAB count
    or COMMA count is not zero: TAB when the TAB count is greater than
    or equal to the COMMA count, COMMA otherwise.  When there is no
    such line among the first 50, or the input cannot be read, it
    returns COMMA. *)
Lemma detect_delimiter_first_fifty_lines (path : file) :
  _detect_delimiter path = detect_within_first_lines path.
Proof.
  destruct path as [text|]; [|reflexivity].
  cbn [_detect_delimiter detect_within_first_lines]. apply detect_loop_lines.
Qed.

(** C4 does not hold of the code: the comment of line 14 speaks of
    non-empty lines, as the claim does, but the [continue] of line 20
    uses up an iteration of [range(50)].  After fifty empty lines a
    line with a TAB is never inspected and the result is COMMA, where
    inspecting up to 50 lines that are not empty gives TAB; one empty
    line fewer and the code gives TAB as well. *)
Lemma detect_delimiter_blank_lines_counted :
  _detect_delimiter (Some late_tab_text) = Char.comma /\
  detect_skipping_blanks_uncounted (Some late_tab_text) = Char.tab /\
  _detect_delimiter (Some late_tab_text)
    <> detect_skipping_blanks_uncounted (Some late_tab_text) /\
  _detect_delimiter (Some (string_of_list_ascii (repeat Char.lf 49) ++
                           String "a" (String Char.tab "b"))) = Char.tab.
Proof. vm_compute. repeat split; discriminate. Qed.

(** ** Strings *)

Lemma isdigit_not_space c : Char.isdigit c = true -> Char.isspace c = false.
Proof.
  destruct c as [b0 b1 b2 b3 b4 b5 b6 b7].
  destruct b0, b1, b2, b3, b4, b5, b6, b7; vm_compute; congruence.
Qed.

Lemma dot_not_space c : Ascii.eqb Char.dot c = true -> Char.isspace c = false.
Proof. intros H. apply Ascii.eqb_eq in H. now subst c. Qed.

Section Strip.

Variable p : ascii -> bool.
Hypothesis p_not_space : forall c, p c = true -> Char.isspace c = false.

Lemma any_lstrip s : Str.any p (Str.lstrip s) = Str.any p s.
Proof.
  induction s as [|c s IH]; [reflexivity|]. cbn.
  destruct (Char.isspace c) eqn:Hc; [|reflexivity].
  rewrite IH. destruct (p c) eqn:Hp; [|reflexivity].
  apply p_not_space in Hp. congruence.
Qed.

Lemma any_rstrip s : Str.any p (Str.rstrip s) = Str.any p s.
Proof.
  induction s as [|c s IH]; [reflexivity|]. cbn.
  destruct (Str.rstrip s) as [|d r] eqn:Hr.
  - rewrite <- IH. cbn. rewrite orb_false_r.
    destruct (Char.isspace c) eqn:Hc; [|cbn; now rewrite orb_false_r].
    cbn. destruct (p c) eqn:Hp; [|reflexivity].
    apply p_not_space in Hp. congruence.
  - cbn [Str.any]. now rewrite <- IH.
Qed.

Lemma any_strip s : Str.any p (Str.strip s) = Str.any p s.
Proof. unfold Str.strip. now rewrite any_rstrip, any_lstrip. Qed.

End Strip.

(** [looks_like_ip] holds of the strings that contain a dot and a
    digit: stripping removes neither. *)
Lemma looks_like_ip_spec s :
  looks_like_ip s = Str.contains Char.dot s && Str.any Char.isdigit s.
Proof.
  unfold looks_like_ip, Str.contains.
  rewrite (any_strip _ dot_not_space), (any_strip _ isdigit_not_space).
  reflexivity.
Qed.

(** ** Alias resolution *)

Lemma index_Some name h i :
  index name h = Some i ->
  h !! i = Some name /\ forall j, (j < i)%nat -> h !! j ≠ Some name.
Proof.
  revert i. induction h as [|x h IH]; intros i; [discriminate|]. cbn.
  destruct (String.eqb_spec x name) as [->|Hne].
  - intros [= <-]. split; [reflexivity | intros j Hj; lia].
  - destruct (index name h) as [i'|]; [|discriminate].
    intros [= <-]. destruct (IH i' eq_refl) as [Hi Hlt].
    split; [exact Hi|]. intros [|j] Hj; cbn; [congruence|]. apply Hlt. lia.
Qed.

Lemma index_None name h : index name h = None -> name ∉ h.
Proof.
  induction h as [|x h IH]; cbn; [intros _; apply not_elem_of_nil|].
  destruct (String.eqb_spec x name) as [->|Hne]; [discriminate|].
  destruct (index name h); [discriminate|]. intros _.
  apply not_elem_of_cons. split; [congruence | now apply IH].
Qed.

Lemma find_resolves h cands i : find h cands = Some i -> resolves h cands i.
Proof.
  induction cands as [|name cands IH]; [discriminate|]. cbn.
  destruct (index name h) as [i'|] eqn:Hidx.
  - intros [= <-]. apply index_Some in Hidx as [Hi Hlt].
    exists [], name, cands. repeat split; [constructor | exact Hi | exact Hlt].
  - intros Hf. destruct (IH Hf) as (before & a & after & -> & Hb & Hi & Hlt).
    exists (name :: before), a, after. repeat split; try assumption.
    constructor; [now apply index_None | exact Hb].
Qed.

Lemma find_unresolved h cands : find h cands = None -> unresolved h cands.
Proof.
  induction cands as [|name cands IH]; [intros _; constructor|]. cbn.
  destruct (index name h) eqn:Hidx; [discriminate|].
  intros Hf. constructor; [now apply index_None | now apply IH].
Qed.

(** The mapping of a header is all of the five resolved columns, or
    the natural order. *)
Lemma header_mapping_all_or_nothing h :
  (exists i_t i_sip i_sport i_dip i_dport,
      resolves h time_aliases i_t /\ resolves h sip_aliases i_sip /\
      resolves h sport_aliases i_sport /\ resolves h dip_aliases i_dip /\
      resolves h dport_aliases i_dport /\
      header_mapping h = (i_t, i_sip, i_sport, i_dip, i_dport))
  \/
  ((unresolved h time_aliases \/ unresolved h sip_aliases \/
    unresolved h sport_aliases \/ unresolved h dip_aliases \/
    unresolved h dport_aliases) /\
   header_mapping h = (0, 1, 2, 3, 4)%nat).
Proof.
  unfold header_mapping.
  destruct (find h time_aliases) as [a|] eqn:Ha;
    [|right; split; [left; now apply find_unresolved | reflexivity]].
  destruct (find h sip_aliases) as [b|] eqn:Hb;
    [|right; split; [right; left; now apply find_unresolved | reflexivity]].
  destruct (find h sport_aliases) as [c|] eqn:Hc;
    [|right; split; [do 2 right; left; now apply find_unresolved | reflexivity]].
  destruct (find h dip_aliases) as [d|] eqn:Hd;
    [|right; split; [do 3 right; left; now apply find_unresolved | reflexivity]].
  destruct (find h dport_aliases) as [e|] eqn:He;
    [|right; split; [do 4 right; now apply find_unresolved | reflexivity]].
  left. exists a, b, c, d, e. repeat split; now apply find_resolves.
Qed.

(** ** The loop over the rows *)

Section Loop.

Context {B : Builtins}.

Lemma loop_app target st rows1 rows2 :
  loop target st (rows1 ++ rows2) =
  st' ← loop target st rows1; loop target st' rows2.
Proof.
  revert st. induction rows1 as [|r rows1 IH]; intros st; [reflexivity|].
  cbn [loop app]. destruct (loop_body target st r) as [st1|e]; [|reflexivity].
  apply IH.
Qed.

Lemma loop_body_short target st r :
  (length r < 5)%nat -> loop_body target st r = Return st.
Proof.
  intros H. unfold loop_body.
  now destruct (Nat.ltb_spec (length r) 5); [|lia].
Qed.

Lemma loop_short_rows target st pre rows :
  Forall (fun r : row => (length r < 5)%nat) pre ->
  loop target st (pre ++ rows) = loop target st rows.
Proof.
  induction 1 as [|r pre Hr _ IH]; [reflexivity|].
  cbn [app loop]. now rewrite loop_body_short.
Qed.

Lemma record_packet_inv st k t st' :
  record_packet st k t = Return st' ->
  exists sec,
    math_floor t = Return sec /\
    st' = {| header := header st; mapping := mapping st;
             counts := incr (counts st) k sec;
             min_sec := lower_min (min_sec st) sec;
             max_sec := raise_max (max_sec st) sec |}.
Proof.
  unfold record_packet. destruct (math_floor t) as [sec|e]; [|discriminate].
  intros [= <-]. now exists sec.
Qed.

(** What the body of the loop does with a row, in terms of the
    endpoint filter. *)
Lemma loop_body_passes target st r :
  layout_ok st ->
  loop_body target st r =
  match passes target st r with
  | None => Return (next_layout st r)
  | Some (k, t) => record_packet (next_layout st r) k t
  end.
Proof.
  intros Hok. unfold loop_body, passes, next_layout, mapping_in_effect.
  destruct (length r <? 5)%nat; [reflexivity|].
  destruct (header st) as [h|] eqn:Hh.
  - destruct Hok as [m Hm]; [now rewrite Hh|].
    unfold parse_row. rewrite Hm. cbn.
    destruct (parse_fields m r) as [[[[[t sip] sport] dip] dport]|];
      [|reflexivity].
    cbn. now destruct (endpoint_key target sip sport dip dport).
  - destruct (has_alpha r); [reflexivity|].
    unfold parse_row. cbn.
    destruct (parse_fields (headerless_mapping r) r)
      as [[[[[t sip] sport] dip] dport]|]; [|reflexivity].
    cbn. now destruct (endpoint_key target sip sport dip dport).
Qed.

Lemma next_layout_ok st r : layout_ok st -> layout_ok (next_layout st r).
Proof.
  unfold next_layout, layout_ok.
  destruct (length r <? 5)%nat; [auto|].
  destruct (header st); [auto|]. destruct (has_alpha r); cbn; eauto.
Qed.

Lemma next_layout_counts st r :
  counts (next_layout st r) = counts st /\
  min_sec (next_layout st r) = min_sec st /\
  max_sec (next_layout st r) = max_sec st.
Proof.
  unfold next_layout. destruct (length r <? 5)%nat; [auto|].
  destruct (header st); [auto|]. now destruct (has_alpha r).
Qed.

Lemma next_layout_fixed st r :
  is_Some (header st) -> next_layout st r = st.
Proof.
  intros [h Hh]. unfold next_layout. rewrite Hh.
  now destruct (length r <? 5)%nat.
Qed.

Lemma loop_body_layout target st r st' :
  layout_ok st -> loop_body target st r = Return st' ->
  header st' = header (next_layout st r) /\
  mapping st' = mapping (next_layout st r) /\
  layout_ok st'.
Proof.
  intros Hok. rewrite loop_body_passes by assumption.
  pose proof (next_layout_ok st r Hok) as Hok'.
  destruct (passes target st r) as [[k t]|].
  - intros H. apply record_packet_inv in H as (sec & _ & ->). cbn. auto.
  - intros [= <-]. auto.
Qed.

Lemma loop_layout_ok target st rows st' :
  layout_ok st -> loop target st rows = Return st' -> layout_ok st'.
Proof.
  revert st. induction rows as [|r rows IH]; intros st Hok; cbn.
  - now intros [= <-].
  - destruct (loop_body target st r) as [st1|e] eqn:Hb; [|discriminate].
    cbn. apply IH. now destruct (loop_body_layout _ _ _ _ Hok Hb) as (_ & _ & ?).
Qed.

Lemma initial_ok : layout_ok initial.
Proof. intros [h Hh]. discriminate. Qed.

(** Once the layout is decided, it stays for the rest of the pass. *)
Lemma loop_layout_fixed target st rows st' :
  layout_ok st -> is_Some (header st) ->
  loop target st rows = Return st' ->
  header st' = header st /\ mapping st' = mapping st.
Proof.
  revert st. induction rows as [|r rows IH]; intros st Hok Hh; cbn.
  - now intros [= <-].
  - destruct (loop_body target st r) as [st1|e] eqn:Hb; [|discriminate].
    cbn. intros Hl.
    destruct (loop_body_layout _ _ _ _ Hok Hb) as (H1 & H2 & Hok1).
    rewrite next_layout_fixed in H1, H2 by assumption.
    destruct (IH st1 Hok1) as [H3 H4]; [now rewrite H1 | assumption|].
    split; congruence.
Qed.

Lemma parse_row_layout target st r st' :
  parse_row target st r = Return st' ->
  header st' = header st /\ mapping st' = mapping st.
Proof.
  unfold parse_row. destruct (mapping st) as [m|] eqn:Hm; [|discriminate].
  destruct (parse_fields m r) as [[[[[t sip] sport] dip] dport]|];
    [|now intros [= <-]].
  destruct (endpoint_key target sip sport dip dport) as [k|];
    [|now intros [= <-]].
  intros H. apply record_packet_inv in H as (sec & _ & ->). auto.
Qed.

(** C2: when the first row of five fields or more has a letter, it is
    taken as the header and gives no data.  The mapping is then either
    the five columns that the alias lists resolve to, all five of them
    resolved, or, when one of the five has no alias in the header, the
    natural order (0,1,2,3,4) for all five. *)
Theorem header_row_all_or_nothing target (pre : list row) (r : row) (post : list row) :
  Forall (fun x : row => (length x < 5)%nat) pre ->
  (5 <= length r)%nat ->
  has_alpha r = true ->
  let h := map (fun c => Str.lower (Str.strip c)) r in
  exists m,
    loop target initial (pre ++ r :: post) =
      loop target (decided h m initial) post
    /\ (forall st', loop target initial (pre ++ r :: post) = Return st' ->
                    mapping st' = Some m)
    /\ ((exists i_t i_sip i_sport i_dip i_dport,
           resolves h time_aliases i_t /\ resolves h sip_aliases i_sip /\
           resolves h sport_aliases i_sport /\ resolves h dip_aliases i_dip /\
           resolves h dport_aliases i_dport /\
           m = (i_t, i_sip, i_sport, i_dip, i_dport))
        \/
        ((unresolved h time_aliases \/ unresolved h sip_aliases \/
          unresolved h sport_aliases \/ unresolved h dip_aliases \/
          unresolved h dport_aliases) /\
         m = (0, 1, 2, 3, 4)%nat)).
Proof.
  intros Hpre Hlen Halpha h. exists (header_mapping h).
  assert (Hrun : loop target initial (pre ++ r :: post) =
                 loop target (decided h (header_mapping h) initial) post).
  { rewrite loop_short_rows by assumption. cbn [loop].
    unfold loop_body. destruct (Nat.ltb_spec (length r) 5); [lia|].
    cbn [header initial]. now rewrite Halpha. }
  split; [exact Hrun|]. split; [|apply header_mapping_all_or_nothing].
  intros st'. rewrite Hrun. intros Hl.
  apply loop_layout_fixed in Hl as [_ Hm]; [exact Hm | | cbn; eauto].
  intros _. cbn. eauto.
Qed.

End Loop.

(** ** The count table *)

Lemma incr_lookup c k sec k' :
  incr c k sec !! k' =
  if decide (k = k')
  then Some (<[sec := default 0 (default ∅ (c !! k) !! sec) + 1]>
               (default ∅ (c !! k)))
  else c !! k'.
Proof.
  unfold incr. destruct (decide (k = k')) as [->|Hne].
  - now rewrite lookup_insert_eq.
  - now rewrite lookup_insert_ne.
Qed.

(** Counting a packet adds one at its key and second, and nothing
    anywhere else. *)
Lemma count_at_incr c k sec k' sec' :
  count_at (incr c k sec) k' sec' =
  count_at c k' sec' + (if decide (k' = k /\ sec' = sec) then 1 else 0).
Proof.
  unfold count_at. rewrite incr_lookup.
  destruct (decide (k = k')) as [<-|Hne].
  - cbn. destruct (decide (sec' = sec)) as [->|Hs].
    + rewrite lookup_insert_eq. rewrite decide_True by done.
      now destruct (c !! k).
    + rewrite lookup_insert_ne by congruence.
      rewrite decide_False by (intros []; congruence).
      destruct (c !! k); cbn; [lia|]. rewrite lookup_empty. cbn. lia.
  - rewrite decide_False by (intros []; congruence). lia.
Qed.

Lemma stored_incr c k s sec :
  stored (incr c k s) sec <-> stored c sec \/ sec = s.
Proof.
  unfold stored. split.
  - intros (k' & inner & Hk & Hs). rewrite incr_lookup in Hk.
    destruct (decide (k = k')) as [<-|Hne].
    + injection Hk as <-. destruct (decide (sec = s)) as [->|Hsec]; [now right|].
      rewrite lookup_insert_ne in Hs by congruence. left.
      destruct (c !! k) as [inner|] eqn:Hc; cbn in Hs.
      * now exists k, inner.
      * rewrite lookup_empty in Hs. now destruct Hs.
    + left. now exists k', inner.
  - intros [(k' & inner & Hk & Hs)| ->].
    + destruct (decide (k = k')) as [<-|Hne].
      * eexists k, _. rewrite incr_lookup, decide_True by done.
        split; [reflexivity|]. rewrite Hk. cbn.
        destruct (decide (s = sec)) as [->|Hsec].
        -- rewrite lookup_insert_eq. eauto.
        -- now rewrite lookup_insert_ne.
      * exists k', inner. now rewrite incr_lookup, decide_False.
    + eexists k, _. rewrite incr_lookup, decide_True by done.
      split; [reflexivity|]. rewrite lookup_insert_eq. eauto.
Qed.

Lemma incr_empty k sec : incr ∅ k sec = {[ k := {[ sec := 1 ]} ]}.
Proof.
  unfold incr. rewrite lookup_empty. cbn. rewrite lookup_empty. cbn.
  now rewrite !insert_empty.
Qed.

Lemma count_at_singleton k sec (v : Z) :
  count_at {[ k := {[ sec := v ]} ]} k sec = v.
Proof.
  unfold count_at. rewrite lookup_singleton_eq. cbn.
  now rewrite lookup_singleton_eq.
Qed.

(** Counting more events never lowers a count. *)
Lemma count_at_tally_le (evs : list (key * Z)) (c : count_table) k s :
  count_at c k s <= count_at (tally c evs) k s.
Proof.
  revert c. induction evs as [|[k' s'] evs IH]; intros c; [reflexivity|].
  change (tally c ((k', s') :: evs)) with (tally (incr c k' s') evs).
  etransitivity; [|apply IH]. rewrite count_at_incr. case_decide; lia.
Qed.

Lemma lookup_nth (r : row) i :
  (i < length r)%nat -> r !! i = Some (nth i r EmptyString).
Proof.
  intros H. apply lookup_lt_is_Some_2 in H as [x Hx].
  now rewrite nth_lookup, Hx.
Qed.

Lemma stored_empty sec : ~ stored ∅ sec.
Proof. intros (k & inner & Hk & _). now rewrite lookup_empty in Hk. Qed.

Lemma stored_tally evs c sec :
  stored (tally c evs) sec <-> stored c sec \/ sec ∈ evs.*2.
Proof.
  revert c. induction evs as [|[k s] evs IH]; intros c.
  - cbn. rewrite elem_of_nil. tauto.
  - change (tally c ((k, s) :: evs)) with (tally (incr c k s) evs).
    rewrite IH, stored_incr, fmap_cons, elem_of_cons. cbn. tauto.
Qed.

(** ** The observed range *)

Lemma lower_min_fold l a :
  exists lo, foldl lower_min (Some a) l = Some lo /\
    lo <= a /\ Forall (fun s => lo <= s) l /\ (lo = a \/ lo ∈ l).
Proof.
  revert a. induction l as [|s l IH]; intros a; cbn.
  - exists a. repeat split; [lia | constructor | now left].
  - destruct (Z.ltb_spec s a) as [Hlt|Hge].
    + destruct (IH s) as (lo & -> & Hle & Hall & Hin). exists lo.
      repeat split; [lia | constructor; [lia | exact Hall] |].
      right. destruct Hin as [->|Hin]; [left | now right].
    + destruct (IH a) as (lo & -> & Hle & Hall & Hin). exists lo.
      repeat split; [lia | constructor; [lia | exact Hall] |].
      destruct Hin as [->|Hin]; [now left | right; now right].
Qed.

Lemma raise_max_fold l a :
  exists hi, foldl raise_max (Some a) l = Some hi /\
    a <= hi /\ Forall (fun s => s <= hi) l /\ (hi = a \/ hi ∈ l).
Proof.
  revert a. induction l as [|s l IH]; intros a; cbn.
  - exists a. repeat split; [lia | constructor | now left].
  - destruct (Z.ltb_spec a s) as [Hlt|Hge].
    + destruct (IH s) as (hi & -> & Hle & Hall & Hin). exists hi.
      repeat split; [lia | constructor; [lia | exact Hall] |].
      right. destruct Hin as [->|Hin]; [left | now right].
    + destruct (IH a) as (hi & -> & Hle & Hall & Hin). exists hi.
      repeat split; [lia | constructor; [lia | exact Hall] |].
      destruct Hin as [->|Hin]; [now left | right; now right].
Qed.

(** The range of a pass with at least one accepted row. *)
Lemma range_of_seconds s l :
  exists lo hi,
    foldl lower_min None (s :: l) = Some lo /\
    foldl raise_max None (s :: l) = Some hi /\
    lo ∈ s :: l /\ hi ∈ s :: l /\
    Forall (fun x => lo <= x <= hi) (s :: l).
Proof.
  cbn. destruct (lower_min_fold l s) as (lo & -> & Hlo & Hall & Hin).
  destruct (raise_max_fold l s) as (hi & -> & Hhi & Hall' & Hin').
  exists lo, hi. repeat split.
  - destruct Hin as [->|Hin]; [left | now right].
  - destruct Hin' as [->|Hin']; [left | now right].
  - constructor; [lia|]. rewrite Forall_forall in *. intros x Hx.
    specialize (Hall x Hx). specialize (Hall' x Hx). lia.
Qed.

(** ** The floor of a timestamp *)

Lemma Qpower_2_neg p : (Qpower 2 (Z.neg p) == 1 # (2 ^ p)%positive)%Q.
Proof.
  change (Qpower 2 (Z.neg p)) with (/ Qpower (inject_Z 2) (Z.pos p))%Q.
  rewrite <- Zpower_Qpower by lia.
  rewrite <- Pos2Z.inj_pow. reflexivity.
Qed.

Lemma Qpower_2_nonneg e : 0 <= e -> (Qpower 2 e == inject_Z (2 ^ e))%Q.
Proof. intros He. now rewrite Zpower_Qpower. Qed.

(** [math_floor] returns on the finite floats, and what it returns is
    the largest integer that is not above the float. *)
Lemma math_floor_spec t sec :
  math_floor t = Return sec ->
  finite t /\ (inject_Z sec <= value t)%Q /\ (value t < inject_Z (sec + 1))%Q.
Proof.
  destruct t as [s| s| |s m e]; cbn; try discriminate.
  - intros [= <-]. repeat split. apply Qle_refl.
  - intros [= <-]. split; [exact I|].
    destruct (Z.leb_spec 0 e) as [He|He].
    + rewrite Qpower_2_nonneg by assumption. rewrite <- inject_Z_mult.
      rewrite <- Zle_Qle, <- Zlt_Qlt. lia.
    + destruct e as [|p|p]; try lia.
      rewrite Qpower_2_neg. change (- Z.neg p) with (Z.pos p).
      assert (Hpow : 2 ^ Z.pos p = Z.pos (2 ^ p)) by now rewrite Pos2Z.inj_pow.
      rewrite Hpow. set (d := (2 ^ p)%positive).
      pose proof (Z.mul_div_le (signed s m) (Z.pos d) eq_refl).
      pose proof (Z.mul_succ_div_gt (signed s m) (Z.pos d) eq_refl).
      unfold Qle, Qlt, Qmult, inject_Z. cbn [Qnum Qden].
      rewrite !Z.mul_1_r, Pos.mul_1_l. lia.
Qed.

Lemma math_floor_finite t : finite t -> exists sec, math_floor t = Return sec.
Proof. destruct t; cbn; intros H; try contradiction; eauto. Qed.

(** ** Passes *)

Section Passes.

Context {B : Builtins}.

Lemma passes_layout target st1 st2 r :
  header st1 = header st2 -> mapping st1 = mapping st2 ->
  passes target st1 r = passes target st2 r.
Proof.
  intros Hh Hm. unfold passes, mapping_in_effect. now rewrite Hh, Hm.
Qed.

Lemma next_layout_layout st1 st2 r :
  header st1 = header st2 -> mapping st1 = mapping st2 ->
  header (next_layout st1 r) = header (next_layout st2 r) /\
  mapping (next_layout st1 r) = mapping (next_layout st2 r).
Proof.
  intros Hh Hm. unfold next_layout. rewrite Hh.
  destruct (length r <? 5)%nat; [auto|].
  destruct (header st2) eqn:Hh2; [split; congruence|].
  now destruct (has_alpha r).
Qed.

(** The rows that pass the filter depend on the layout alone. *)
Lemma accepted_layout target st1 st2 rows :
  header st1 = header st2 -> mapping st1 = mapping st2 ->
  accepted target st1 rows = accepted target st2 rows.
Proof.
  revert st1 st2. induction rows as [|r rows IH]; intros st1 st2 Hh Hm;
    [reflexivity|].
  cbn [accepted]. rewrite (passes_layout target st1 st2) by assumption.
  destruct (next_layout_layout st1 st2 r Hh Hm) as [Hh' Hm'].
  now rewrite (IH _ _ Hh' Hm').
Qed.

(** A pass that returns has counted every accepted row, once, under
    its key and the floor of its timestamp, and has folded the seconds
    into the range. *)
Lemma loop_events target st rows st' :
  layout_ok st -> loop target st rows = Return st' ->
  length (events target st rows) = length (accepted target st rows) /\
  counts st' = tally (counts st) (events target st rows) /\
  min_sec st' = foldl lower_min (min_sec st) (events target st rows).*2 /\
  max_sec st' = foldl raise_max (max_sec st) (events target st rows).*2.
Proof.
  revert st. induction rows as [|r rows IH]; intros st Hok.
  - cbn. now intros [= <-].
  - cbn [loop]. destruct (loop_body target st r) as [st1|e] eqn:Hb;
      [|discriminate].
    cbn. intros Hl.
    destruct (loop_body_layout _ _ _ _ Hok Hb) as (Hh & Hm & Hok1).
    destruct (IH st1 Hok1 Hl) as (Hlen & Hc & Hlo & Hhi).
    unfold events in *. cbn [accepted].
    rewrite <- (accepted_layout target st1 (next_layout st r) rows Hh Hm).
    rewrite loop_body_passes in Hb by assumption.
    destruct (next_layout_counts st r) as (Hc0 & Hlo0 & Hhi0).
    destruct (passes target st r) as [[k t]|].
    + apply record_packet_inv in Hb as (sec & Hfl & Hst1).
      assert (Hev : forall evs,
                 omap floor_of ((k, t) :: evs) = (k, sec) :: omap floor_of evs).
      { intros evs. cbn [omap list_omap]. unfold floor_of at 1.
        cbn [fst snd]. now rewrite Hfl. }
      assert (Hc1 : counts st1 = incr (counts st) k sec)
        by (rewrite Hst1; cbn; now rewrite Hc0).
      assert (Hlo1 : min_sec st1 = lower_min (min_sec st) sec)
        by (rewrite Hst1; cbn; now rewrite Hlo0).
      assert (Hhi1 : max_sec st1 = raise_max (max_sec st) sec)
        by (rewrite Hst1; cbn; now rewrite Hhi0).
      rewrite Hc1 in Hc. rewrite Hlo1 in Hlo. rewrite Hhi1 in Hhi.
      cbn [app]. rewrite Hev, fmap_cons. unfold tally in *.
      cbn [foldl length fst snd].
      repeat split; [now rewrite Hlen | exact Hc | exact Hlo | exact Hhi].
    + injection Hb as <-. cbn [app].
      rewrite Hc0 in Hc. rewrite Hlo0 in Hlo. rewrite Hhi0 in Hhi. auto.
Qed.

(** A pass returns when the timestamps of the accepted rows are
    finite. *)
Lemma loop_returns target st rows :
  layout_ok st ->
  Forall (fun e => finite (snd e)) (accepted target st rows) ->
  exists st', loop target st rows = Return st'.
Proof.
  revert st. induction rows as [|r rows IH]; intros st Hok Hfin.
  - now exists st.
  - cbn [loop accepted] in *. rewrite loop_body_passes by assumption.
    pose proof (next_layout_ok st r Hok) as Hok'.
    destruct (passes target st r) as [[k t]|].
    + apply Forall_cons in Hfin as [Ht Hfin]. cbn in Ht.
      destruct (math_floor_finite t Ht) as [sec Hsec].
      unfold record_packet. rewrite Hsec. cbn.
      apply IH; [exact Hok'|].
      erewrite accepted_layout; [exact Hfin | reflexivity | reflexivity].
    + cbn. now apply IH.
Qed.

End Passes.

(** ** Rows *)

Section Rows.

Context {B : Builtins}.

Lemma parse_fields_missing m (r : row) :
  out_of_range m r -> parse_fields m r = None.
Proof.
  destruct m as [[[[i_t i_sip] i_sport] i_dip] i_dport]. unfold parse_fields.
  intros Hout.
  destruct (r !! i_t) as [f_t|] eqn:Ht; [|reflexivity].
  destruct (r !! i_sip) as [f_sip|] eqn:Hsip;
    [|cbn; now destruct (py_float f_t)].
  destruct (r !! i_sport) as [f_sport|] eqn:Hsport;
    [|cbn; now destruct (py_float f_t)].
  destruct (r !! i_dip) as [f_dip|] eqn:Hdip;
    [|cbn; destruct (py_float f_t); [|reflexivity]; cbn;
      now destruct (py_int f_sport)].
  destruct (r !! i_dport) as [f_dport|] eqn:Hdport;
    [|cbn; destruct (py_float f_t); [|reflexivity]; cbn;
      now destruct (py_int f_sport)].
  apply lookup_lt_Some in Ht, Hsip, Hsport, Hdip, Hdport.
  cbn in Hout. lia.
Qed.

Lemma parse_fields_unparsable i_t i_sip i_sport i_dip i_dport (r : row) :
  (exists s, r !! i_t = Some s /\ py_float s = None) \/
  (exists s, r !! i_sport = Some s /\ py_int s = None) \/
  (exists s, r !! i_dport = Some s /\ py_int s = None) ->
  parse_fields (i_t, i_sip, i_sport, i_dip, i_dport) r = None.
Proof.
  unfold parse_fields.
  intros [(s & Hs & Hf)|[(s & Hs & Hf)|(s & Hs & Hf)]]; rewrite Hs; cbn.
  - now rewrite Hf.
  - destruct (r !! i_t ≫= py_float); [|reflexivity]. cbn.
    destruct (r !! i_sip); [|reflexivity]. cbn. now rewrite Hf.
  - destruct (r !! i_t ≫= py_float); [|reflexivity]. cbn.
    destruct (r !! i_sip); [|reflexivity]. cbn.
    destruct (r !! i_sport ≫= py_int); [|reflexivity]. cbn.
    destruct (r !! i_dip); [|reflexivity]. cbn. now rewrite Hf.
Qed.

Lemma passes_parsed target st (r : row) m t sip sport dip dport :
  (5 <= length r)%nat ->
  mapping_in_effect st r = Some m ->
  parse_fields m r = Some (t, sip, sport, dip, dport) ->
  passes target st r =
  (k ← endpoint_key target sip sport dip dport; Some (k, t)).
Proof.
  intros Hlen Hm Hp. unfold passes.
  destruct (Nat.ltb_spec (length r) 5); [lia|].
  rewrite Hm. cbn. now rewrite Hp.
Qed.

(** C1: in a headerless input, where the first row of five fields or
    more has no letter, the mapping is decided on field 1 of that row:
    the natural order (0,1,2,3,4) if the field contains a dot and a
    digit, (0,3,1,4,2) otherwise.  The row is itself parsed as data
    under that mapping, and the mapping stays for the rest of the
    pass.  Parsed as data means counted: when the fields that the
    mapping names are a timestamp [t] with floor [sec] and two ports,
    and the source address or else the destination address is the
    target, the table after the row has count 1 at second [sec] under
    the key of the target and that port, and nothing else, and the
    range is [sec] to [sec]; this is what [parse_csv] returns when no
    row of five fields follows, and the count is never lost when rows
    follow. *)
Theorem headerless_first_row target (pre : list row) (r : row) (post : list row) :
  Forall (fun x : row => (length x < 5)%nat) pre ->
  (5 <= length r)%nat ->
  has_alpha r = false ->
  let field1 := nth 1 r EmptyString in
  let m := if Str.contains Char.dot field1 && Str.any Char.isdigit field1
           then (0, 1, 2, 3, 4)%nat else (0, 3, 1, 4, 2)%nat in
  loop target initial (pre ++ r :: post) =
    (st1 ← parse_row target (decided [] m initial) r; loop target st1 post)
  /\ (forall st', loop target initial (pre ++ r :: post) = Return st' ->
                  mapping st' = Some m)
  /\ forall i_t i_sip i_sport i_dip i_dport t sport dport k sec,
       m = (i_t, i_sip, i_sport, i_dip, i_dport) ->
       py_float (nth i_t r EmptyString) = Some t ->
       py_int (nth i_sport r EmptyString) = Some sport ->
       py_int (nth i_dport r EmptyString) = Some dport ->
       let sip := Str.strip (nth i_sip r EmptyString) in
       let dip := Str.strip (nth i_dip r EmptyString) in
       (sip = target /\ k = (target, sport) \/
        sip <> target /\ dip = target /\ k = (target, dport)) ->
       math_floor t = Return sec ->
       let st1 := {| header := Some []; mapping := Some m;
                     counts := {[ k := {[ sec := 1 ]} ]};
                     min_sec := Some sec; max_sec := Some sec |} in
       parse_row target (decided [] m initial) r = Return st1 /\
       loop target initial (pre ++ r :: post) = loop target st1 post /\
       (Forall (fun x : row => (length x < 5)%nat) post ->
        parse_rows target (pre ++ r :: post) =
          Return ({[ k := {[ sec := 1 ]} ]}, sec, sec)) /\
       (forall st', loop target initial (pre ++ r :: post) = Return st' ->
                    1 <= count_at (counts st') k sec).
Proof.
  intros Hpre Hlen Halpha field1 m.
  assert (Hm : headerless_mapping r = m).
  { unfold headerless_mapping, m, field1. now rewrite looks_like_ip_spec. }
  assert (Hrun : loop target initial (pre ++ r :: post) =
            (st1 ← parse_row target (decided [] m initial) r;
             loop target st1 post)).
  { rewrite loop_short_rows by assumption. cbn [loop].
    unfold loop_body. destruct (Nat.ltb_spec (length r) 5); [lia|].
    cbn [header initial]. now rewrite Halpha, Hm. }
  split; [exact Hrun|]. split.
  { intros st'. rewrite Hrun.
    destruct (parse_row target (decided [] m initial) r) as [st1|e] eqn:Hp;
      [|discriminate].
    cbn. intros Hl. apply parse_row_layout in Hp as [Hh Hmap]. cbn in Hh, Hmap.
    assert (Hok1 : layout_ok st1) by (intros _; rewrite Hmap; eauto).
    destruct (loop_layout_fixed _ _ _ _ Hok1 (ltac:(rewrite Hh; eauto)) Hl).
    congruence. }
  intros i_t i_sip i_sport i_dip i_dport t sport dport k sec
    Hidx Ht Hsport Hdport sip dip Hkey Hfloor st1.
  assert (Hin : (i_t < length r /\ i_sip < length r /\ i_sport < length r /\
                 i_dip < length r /\ i_dport < length r)%nat).
  { unfold m in Hidx.
    destruct (Str.contains Char.dot field1 && Str.any Char.isdigit field1);
      injection Hidx as <- <- <- <- <-; lia. }
  destruct Hin as (H1 & H2 & H3 & H4 & H5).
  assert (Hfields : parse_fields m r = Some (t, sip, sport, dip, dport)).
  { rewrite Hidx. unfold parse_fields.
    rewrite !lookup_nth by assumption. cbn.
    rewrite Ht. cbn. rewrite Hsport. cbn. now rewrite Hdport. }
  assert (Hk : endpoint_key target sip sport dip dport = Some k).
  { unfold endpoint_key.
    destruct Hkey as [[Hs ->]|(Hs & Hd & ->)].
    - apply String.eqb_eq in Hs. now rewrite Hs.
    - apply String.eqb_neq in Hs. apply String.eqb_eq in Hd.
      now rewrite Hs, Hd. }
  assert (Hrow : parse_row target (decided [] m initial) r = Return st1).
  { unfold parse_row. cbn [mapping decided]. rewrite Hfields, Hk.
    unfold record_packet. rewrite Hfloor. cbn.
    now rewrite incr_empty. }
  assert (Hpost : loop target initial (pre ++ r :: post) = loop target st1 post)
    by now rewrite Hrun, Hrow.
  assert (Hok1 : layout_ok st1) by (intros _; cbn; eauto).
  split; [exact Hrow|]. split; [exact Hpost|]. split.
  - intros Hshort. unfold parse_rows. rewrite Hpost.
    rewrite <- (app_nil_r post), loop_short_rows by assumption.
    reflexivity.
  - intros st' Hl. rewrite Hpost in Hl.
    destruct (loop_events _ _ _ _ Hok1 Hl) as (_ & -> & _).
    pose proof (count_at_tally_le (events target st1 post) (counts st1) k sec)
      as Hle.
    cbn [counts st1] in Hle. rewrite count_at_singleton in Hle. exact Hle.
Qed.

(** C3: a row that is parsed is counted under the key
    [(target_ip, sport)] when its source address is the target, under
    [(target_ip, dport)] when its source address is not the target and
    its destination address is, and is not counted when neither is.
    With both addresses the target and two different ports, the count
    goes to the source port and the destination port's key is left as
    it was. *)
Theorem endpoint_key_source_first target (pre : list row) st (r : row) m
    t sip sport dip dport st' :
  loop target initial pre = Return st ->
  (5 <= length r)%nat ->
  mapping_in_effect st r = Some m ->
  parse_fields m r = Some (t, sip, sport, dip, dport) ->
  loop_body target st r = Return st' ->
  (sip = target ->
   exists sec, math_floor t = Return sec /\
     forall k s, count_at (counts st') k s =
       count_at (counts st) k s +
       (if decide (k = (target, sport) /\ s = sec) then 1 else 0))
  /\ (sip <> target -> dip = target ->
      exists sec, math_floor t = Return sec /\
        forall k s, count_at (counts st') k s =
          count_at (counts st) k s +
          (if decide (k = (target, dport) /\ s = sec) then 1 else 0))
  /\ (sip <> target -> dip <> target ->
      counts st' = counts st /\
      min_sec st' = min_sec st /\ max_sec st' = max_sec st)
  /\ (sip = target -> dip = target -> sport <> dport ->
      forall s, count_at (counts st') (target, dport) s =
                count_at (counts st) (target, dport) s).
Proof.
  intros Hpre Hlen Hm Hp Hb.
  pose proof (loop_layout_ok _ _ _ _ initial_ok Hpre) as Hok.
  rewrite loop_body_passes in Hb by assumption.
  rewrite (passes_parsed _ _ _ _ _ _ _ _ _ Hlen Hm Hp) in Hb.
  destruct (next_layout_counts st r) as (Hc0 & Hlo0 & Hhi0).
  unfold endpoint_key in Hb.
  destruct (String.eqb_spec sip target) as [Hs|Hs].
  - cbn in Hb. apply record_packet_inv in Hb as (sec & Hfl & ->). cbn.
    rewrite Hc0. repeat split; try congruence.
    + intros _. exists sec. split; [exact Hfl|]. intros k s.
      apply count_at_incr.
    + intros _ _ Hports s. rewrite count_at_incr.
      rewrite decide_False; [lia|]. intros [[= ?] _]. congruence.
  - destruct (String.eqb_spec dip target) as [Hd|Hd].
    + cbn in Hb. apply record_packet_inv in Hb as (sec & Hfl & ->). cbn.
      rewrite Hc0. repeat split; try congruence.
      intros _ _. exists sec. split; [exact Hfl|]. intros k s.
      apply count_at_incr.
    + cbn in Hb. injection Hb as <-. repeat split; try congruence.
Qed.

(** C6: a malformed row (fewer than five fields, or a mapped timestamp
    that is not a float, or a mapped port that is not an integer)
    raises nothing and leaves the count table and the observed range
    as they were; the pass goes on with the next row. *)
Theorem malformed_row_discarded target (pre : list row) st (r : row)
    (post : list row) :
  loop target initial pre = Return st ->
  malformed st r ->
  exists st',
    loop_body target st r = Return st' /\
    counts st' = counts st /\
    min_sec st' = min_sec st /\ max_sec st' = max_sec st /\
    loop target initial (pre ++ r :: post) = loop target st' post.
Proof.
  intros Hpre Hbad.
  pose proof (loop_layout_ok _ _ _ _ initial_ok Hpre) as Hok.
  assert (Hnone : passes target st r = None).
  { unfold passes. destruct (length r <? 5)%nat eqn:Hlen; [reflexivity|].
    destruct Hbad as [Hshort|(i_t & i_sip & i_sport & i_dip & i_dport & Hm & Hf)].
    - apply Nat.ltb_ge in Hlen. lia.
    - rewrite Hm. cbn [mbind option_bind].
      now rewrite parse_fields_unparsable. }
  exists (next_layout st r).
  assert (Hb : loop_body target st r = Return (next_layout st r))
    by now rewrite loop_body_passes, Hnone.
  destruct (next_layout_counts st r) as (Hc0 & Hlo0 & Hhi0).
  repeat split; try assumption.
  rewrite loop_app, Hpre. cbn. now rewrite Hb.
Qed.

(** C10: with a mapping that is fixed, a row of five fields or more
    that lacks one of the mapped columns is passed over: nothing is
    raised and the state is left as it was. *)
Theorem out_of_range_row_discarded target st (r : row) h m :
  header st = Some h ->
  mapping st = Some m ->
  (5 <= length r)%nat ->
  out_of_range m r ->
  loop_body target st r = Return st /\
  forall post, loop target st (r :: post) = loop target st post.
Proof.
  intros Hh Hm Hlen Hout.
  assert (Hb : loop_body target st r = Return st).
  { unfold loop_body. destruct (Nat.ltb_spec (length r) 5); [lia|].
    rewrite Hh. unfold parse_row. rewrite Hm.
    now rewrite parse_fields_missing. }
  split; [exact Hb|]. intros post. cbn [loop]. now rewrite Hb.
Qed.

(** C8: a row that passes the endpoint filter with timestamp [t] is
    counted under the second [floor(t)], the largest integer that is
    not above [t] (so a negative timestamp goes down, not toward
    zero), and that second is what the range is updated with.  The row
    is counted whenever its timestamp is finite. *)
Theorem second_is_floor_of_timestamp target (pre : list row) st (r : row) k t :
  loop target initial pre = Return st ->
  passes target st r = Some (k, t) ->
  (finite t -> exists st', loop_body target st r = Return st')
  /\ forall st', loop_body target st r = Return st' ->
     exists sec,
       (inject_Z sec <= value t)%Q /\ (value t < inject_Z (sec + 1))%Q /\
       math_floor t = Return sec /\
       counts st' = incr (counts st) k sec /\
       min_sec st' = lower_min (min_sec st) sec /\
       max_sec st' = raise_max (max_sec st) sec.
Proof.
  intros Hpre Hpass.
  pose proof (loop_layout_ok _ _ _ _ initial_ok Hpre) as Hok.
  rewrite loop_body_passes, Hpass by assumption.
  destruct (next_layout_counts st r) as (Hc0 & Hlo0 & Hhi0).
  split.
  - intros Hfin. destruct (math_floor_finite t Hfin) as [sec Hsec].
    unfold record_packet. rewrite Hsec. cbn. eauto.
  - intros st' Hb. apply record_packet_inv in Hb as (sec & Hfl & ->).
    destruct (math_floor_spec t sec Hfl) as (_ & Hle & Hlt).
    exists sec. cbn. rewrite Hc0, Hlo0, Hhi0. auto 10.
Qed.

End Rows.

(** ** Dense series *)

Lemma raw_total_insert (inner : gmap Z Z) i x :
  inner !! i = None -> raw_total (<[i:=x]> inner) = x + raw_total inner.
Proof.
  intros Hi. unfold raw_total. rewrite map_fold_insert_L; [reflexivity| |exact Hi].
  intros. lia.
Qed.

Lemma sum_list_cons a l : sum_list (a :: l) = a + sum_list l.
Proof. reflexivity. Qed.

Lemma sum_list_absent (l : list Z) :
  sum_list (map (fun s => default 0 ((∅ : gmap Z Z) !! s)) l) = 0.
Proof.
  induction l as [|s l IH]; [reflexivity|].
  cbn [map]. now rewrite sum_list_cons, lookup_empty, IH.
Qed.

Lemma sum_list_insert (inner : gmap Z Z) i x (l : list Z) :
  NoDup l -> inner !! i = None ->
  sum_list (map (fun s => default 0 (<[i:=x]> inner !! s)) l) =
  (if decide (i ∈ l) then x else 0) +
  sum_list (map (fun s => default 0 (inner !! s)) l).
Proof.
  intros Hnd Hi. induction Hnd as [|s l Hs Hnd IH].
  - rewrite decide_False by apply not_elem_of_nil. reflexivity.
  - cbn [map]. rewrite !sum_list_cons, IH. destruct (decide (i = s)) as [->|Hne].
    + rewrite lookup_insert_eq, Hi. cbn.
      rewrite (decide_True (P := s ∈ s :: l)) by (now left).
      rewrite (decide_False (P := s ∈ l)) by assumption. lia.
    + rewrite lookup_insert_ne by assumption.
      destruct (decide (i ∈ l)) as [Hin|Hin].
      * rewrite decide_True by (now right). lia.
      * rewrite decide_False; [lia|].
        rewrite elem_of_cons. intros [?|?]; contradiction.
Qed.

(** Summing the dense series over a range that holds every stored
    second gives the sum of the stored counts. *)
Lemma dense_sum (inner : gmap Z Z) lo n :
  (forall s, is_Some (inner !! s) -> lo <= s < lo + n) ->
  sum_list (map (fun s => default 0 (inner !! s)) (seqZ lo n)) =
  raw_total inner.
Proof.
  induction inner as [|i x inner Hi IH] using map_ind; intros Hrange.
  - rewrite sum_list_absent. reflexivity.
  - rewrite (sum_list_insert _ _ _ _ (NoDup_seqZ lo n) Hi).
    rewrite raw_total_insert by assumption.
    rewrite IH.
    + rewrite decide_True; [reflexivity|]. apply elem_of_seqZ.
      apply Hrange. rewrite lookup_insert_eq. eauto.
    + intros s Hs. apply Hrange. destruct (decide (i = s)) as [->|Hne].
      * rewrite Hi in Hs. now destruct Hs.
      * now rewrite lookup_insert_ne.
Qed.

(** ** Results of a pass *)

Section Results.

Context {B : Builtins}.

Lemma parse_rows_inv target rows c lo hi :
  parse_rows target rows = Return (c, lo, hi) ->
  exists st, loop target initial rows = Return st /\
             c = counts st /\ observed_range st = (lo, hi).
Proof.
  unfold parse_rows. destruct (loop target initial rows) as [st|e];
    [|discriminate].
  cbn. destruct (observed_range st) as [lo' hi'] eqn:Hrange.
  intros [= <- <- <-]. now exists st.
Qed.

Lemma parse_csv_inv path target out :
  parse_csv path target = Return out ->
  exists text rows,
    path = Some text /\
    csv_reader (_detect_delimiter path) text = (rows, None) /\
    parse_rows target rows = Return out.
Proof.
  unfold parse_csv. destruct path as [text|]; [|discriminate].
  destruct (csv_reader (_detect_delimiter (Some text)) text)
    as [rows failure] eqn:Hr.
  destruct (parse_rows target rows) as [out'|e] eqn:Hp; [|discriminate].
  cbn. destruct failure; [discriminate|]. intros [= <-].
  now exists text, rows.
Qed.

(** What a pass that returns has stored, and the range it reports. *)
Lemma parse_rows_range target rows c lo hi :
  parse_rows target rows = Return (c, lo, hi) ->
  let secs := seconds target rows in
  length secs = length (accepted target initial rows) /\
  c = tally ∅ (events target initial rows) /\
  (forall sec, stored c sec <-> sec ∈ secs) /\
  lo <= hi /\
  (secs = [] -> lo = 0 /\ hi = 0) /\
  (secs <> [] ->
   lo ∈ secs /\ hi ∈ secs /\ Forall (fun s => lo <= s <= hi) secs).
Proof.
  intros Hp secs. apply parse_rows_inv in Hp as (st & Hl & -> & Hrange).
  destruct (loop_events _ _ _ _ initial_ok Hl) as (Hlen & Hc & Hlo & Hhi).
  cbn [initial counts min_sec max_sec] in Hc, Hlo, Hhi.
  fold (seconds target rows) in Hlo, Hhi. fold secs in Hlo, Hhi.
  split; [unfold secs, seconds; now rewrite length_fmap|].
  split; [exact Hc|].
  split.
  { intros sec. rewrite Hc, stored_tally. unfold secs, seconds.
    pose proof (stored_empty sec). tauto. }
  unfold observed_range in Hrange. rewrite Hlo, Hhi in Hrange.
  destruct secs as [|s l].
  - cbn in Hrange. injection Hrange as <- <-.
    split; [lia|]. split; [intros _; lia | intros Hne; now destruct Hne].
  - destruct (range_of_seconds s l) as (lo' & hi' & E1 & E2 & Hin1 & Hin2 & Hall).
    rewrite E1, E2 in Hrange. injection Hrange as <- <-.
    split.
    + apply Forall_cons in Hall as [? _]. lia.
    + split; [discriminate|]. intros _. auto.
Qed.

(** [parse_csv] returns when the file is read to its end and the
    timestamps of the accepted rows are finite. *)
Lemma parse_csv_returns text (rows : list row) target :
  csv_reader (_detect_delimiter (Some text)) text = (rows, None) ->
  Forall (fun e => finite (snd e)) (accepted target initial rows) ->
  exists c lo hi, parse_csv (Some text) target = Return (c, lo, hi).
Proof.
  intros Hr Hfin. unfold parse_csv, parse_rows. rewrite Hr.
  destruct (loop_returns target initial rows initial_ok Hfin) as [st ->].
  cbn. destruct (observed_range st) as [lo hi]. cbn. eauto.
Qed.

(** C7: when no row passes the endpoint filter, the pass returns the
    empty count table and the range (0, 0), and raises nothing; so does
    [parse_csv] on a file that the reader reads to its end. *)
Theorem no_accepted_row_empty_result target :
  (forall rows : list row,
      accepted target initial rows = [] ->
      parse_rows target rows = Return (∅, 0, 0))
  /\ (forall text (rows : list row),
         csv_reader (_detect_delimiter (Some text)) text = (rows, None) ->
         accepted target initial rows = [] ->
         parse_csv (Some text) target = Return (∅, 0, 0)).
Proof.
  assert (Hrows : forall rows : list row,
             accepted target initial rows = [] ->
             parse_rows target rows = Return (∅, 0, 0)).
  { intros rows Hacc.
    destruct (loop_returns target initial rows initial_ok) as [st Hl];
      [rewrite Hacc; constructor|].
    destruct (loop_events _ _ _ _ initial_ok Hl) as (_ & Hc & Hlo & Hhi).
    unfold events in Hc, Hlo, Hhi. rewrite Hacc in Hc, Hlo, Hhi.
    cbn in Hc, Hlo, Hhi.
    assert (Hrange : observed_range st = (0, 0))
      by (unfold observed_range; now rewrite Hlo).
    unfold parse_rows. rewrite Hl. cbn. now rewrite Hrange, Hc. }
  split; [exact Hrows|].
  intros text rows Hr Hacc. unfold parse_csv. rewrite Hr.
  now rewrite (Hrows rows Hacc).
Qed.

(** C9: the range that [parse_csv] returns has [min_sec <= max_sec].
    It is (0, 0) when no row was accepted; otherwise [min_sec] is the
    least and [max_sec] the greatest of the seconds of the accepted
    rows, which are the seconds stored in the table.  The series built
    over that range is never empty. *)
Theorem returned_range_ordered path target c lo hi :
  parse_csv path target = Return (c, lo, hi) ->
  exists text (rows : list row),
    path = Some text /\
    csv_reader (_detect_delimiter path) text = (rows, None) /\
    let secs := seconds target rows in
    length secs = length (accepted target initial rows) /\
    (forall sec, stored c sec <-> sec ∈ secs) /\
    lo <= hi /\
    (secs = [] -> lo = 0 /\ hi = 0) /\
    (secs <> [] ->
     lo ∈ secs /\ hi ∈ secs /\ Forall (fun s => lo <= s <= hi) secs) /\
    (forall counts_for_key, fst (build_series counts_for_key lo hi) <> []).
Proof.
  intros Hp. apply parse_csv_inv in Hp as (text & rows & -> & Hr & Hp).
  exists text, rows. split; [reflexivity|]. split; [exact Hr|].
  destruct (parse_rows_range _ _ _ _ _ Hp) as (Hlen & _ & Hst & Hle & He & Hne).
  cbn zeta. repeat split; try assumption; try (now apply Hst).
  - now apply He.
  - now apply He.
  - now apply Hne.
  - now apply Hne.
  - now apply Hne.
  - intros sub. unfold build_series, py_range. cbn [fst].
    rewrite seqZ_cons by lia. discriminate.
Qed.

(** C5: [build_series] gives [xs = min_sec, ..., max_sec], of length
    [max_sec - min_sec + 1] (empty when [max_sec < min_sec]), and
    [ys] of the same length with [ys[i]] the count stored for [xs[i]],
    or 0 when there is none.  For a key of the table that [parse_csv]
    returns and the range it returns, the sum of [ys] is the sum of
    the counts stored for the key. *)
Theorem build_series_dense :
  (forall (counts_for_key : gmap Z Z) lo hi,
      let xs := fst (build_series counts_for_key lo hi) in
      let ys := snd (build_series counts_for_key lo hi) in
      (hi < lo -> xs = []) /\
      (lo <= hi -> Z.of_nat (length xs) = hi - lo + 1) /\
      length ys = length xs /\
      (forall i, Z.of_nat i < hi - lo + 1 ->
                 xs !! i = Some (lo + Z.of_nat i) /\
                 ys !! i = Some (default 0 (counts_for_key !! (lo + Z.of_nat i)))))
  /\ (forall path target c lo hi k counts_for_key,
         parse_csv path target = Return (c, lo, hi) ->
         c !! k = Some counts_for_key ->
         lo <= hi /\
         sum_list (snd (build_series counts_for_key lo hi)) =
         raw_total counts_for_key).
Proof.
  split.
  - intros sub lo hi. unfold build_series, py_range. cbn [fst snd].
    replace (hi + 1 - lo) with (hi - lo + 1) by lia.
    repeat split.
    + intros Hlt. apply seqZ_nil. lia.
    + intros Hle. rewrite length_seqZ. lia.
    + now rewrite length_map.
    + now apply lookup_seqZ_lt.
    + rewrite list_lookup_fmap, lookup_seqZ_lt by assumption. reflexivity.
  - intros path target c lo hi k sub Hp Hk.
    apply parse_csv_inv in Hp as (text & rows & -> & Hr & Hp).
    destruct (parse_rows_range _ _ _ _ _ Hp) as (_ & _ & Hst & Hle & He & Hne).
    split; [exact Hle|].
    unfold build_series, py_range. cbn [snd]. apply dense_sum.
    intros s Hs.
    assert (Hin : s ∈ seconds target rows) by (apply Hst; now exists k, sub).
    destruct (seconds target rows) as [|s0 l] eqn:Hsecs;
      [now apply elem_of_nil in Hin|].
    destruct Hne as (_ & _ & Hall); [discriminate|].
    rewrite Forall_forall in Hall. specialize (Hall s Hin). lia.
Qed.

End Results.

(** ** The properties on the example inputs

    Evaluated with the built-in functions of CPython. *)

#[local] Existing Instance CPython.builtins.

(** The two headerless rows of the specification give the key
    [("1.2.3.4", 1234)] with count 1 at second 100. *)
Example legacy_row_counted :
  parse_csv (Some "100.0,1234,80,1.2.3.4,5.6.7.8") "1.2.3.4" =
  Return ({[ ("1.2.3.4", 1234) := {[ 100 := 1 ]} ]}, 100, 100).
Proof. vm_compute. reflexivity. Qed.

Example natural_row_counted :
  parse_csv (Some "100.0,1.2.3.4,1234,5.6.7.8,80") "1.2.3.4" =
  Return ({[ ("1.2.3.4", 1234) := {[ 100 := 1 ]} ]}, 100, 100).
Proof. vm_compute. reflexivity. Qed.

(** The permuted header of the specification resolves by name. *)
Example permuted_header_mapping :
  header_mapping (header_names permuted_header) = (4, 0, 1, 2, 3)%nat.
Proof. reflexivity. Qed.

(** A timestamp of -0.5 goes to second -1. *)
Example negative_timestamp_floor :
  (t ← py_float "-0.5"; Some (math_floor t)) = Some (Return (-1)).
Proof. vm_compute. reflexivity. Qed.

Lemma headerless_first_row_witness :
  Forall (fun x : row => (length x < 5)%nat) [] /\
  (5 <= length legacy_row)%nat /\
  has_alpha legacy_row = false /\
  (forall st', loop "1.2.3.4" initial [legacy_row] = Return st' ->
               mapping st' = Some (0, 3, 1, 4, 2)%nat) /\
  parse_rows "1.2.3.4" [legacy_row] =
    Return ({[ ("1.2.3.4", 1234) := {[ 100 := 1 ]} ]}, 100, 100).
Proof.
  assert (H1 : Forall (fun x : row => (length x < 5)%nat) []) by constructor.
  assert (H2 : (5 <= length legacy_row)%nat) by (cbn; lia).
  assert (H3 : has_alpha legacy_row = false) by reflexivity.
  split; [exact H1|]. split; [exact H2|]. split; [exact H3|].
  destruct (headerless_first_row "1.2.3.4" [] legacy_row [] H1 H2 H3)
    as (_ & Hmap & Hcount).
  split; [exact Hmap|].
  destruct (Hcount 0%nat 3%nat 1%nat 4%nat 2%nat
              (S754_finite false 7036874417766400 (-46)) 1234 80
              ("1.2.3.4", 1234) 100
              eq_refl eq_refl eq_refl eq_refl
              (or_introl (conj eq_refl eq_refl)) eq_refl)
    as (_ & _ & Hrows & _).
  exact (Hrows H1).
Defined.

Lemma header_row_all_or_nothing_witness :
  Forall (fun x : row => (length x < 5)%nat) [] /\
  (5 <= length permuted_header)%nat /\
  has_alpha permuted_header = true /\
  exists m,
    m = (4, 0, 1, 2, 3)%nat /\
    loop "1.2.3.4" initial [permuted_header] =
    loop "1.2.3.4" (decided (header_names permuted_header) m initial) [].
Proof.
  assert (H1 : Forall (fun x : row => (length x < 5)%nat) []) by constructor.
  assert (H2 : (5 <= length permuted_header)%nat) by (cbn; lia).
  assert (H3 : has_alpha permuted_header = true) by reflexivity.
  split; [exact H1|]. split; [exact H2|]. split; [exact H3|].
  destruct (header_row_all_or_nothing "1.2.3.4" [] permuted_header []
              H1 H2 H3) as (m & Hrun & Hm & _).
  exists m. split; [|exact Hrun].
  assert (Hst : loop "1.2.3.4" initial ([] ++ [permuted_header]) =
                Return (decided (header_names permuted_header)
                          (4, 0, 1, 2, 3)%nat initial))
    by reflexivity.
  apply Hm in Hst. now injection Hst.
Defined.

Lemma endpoint_key_source_first_witness :
  let t := S754_finite false 4503599627370496 (-52) in
  let st' := {| header := Some []; mapping := Some natural;
                counts := {[ ("1.2.3.4", 1111) := {[ 1 := 1 ]} ]};
                min_sec := Some 1; max_sec := Some 1 |} in
  loop "1.2.3.4" initial [] = Return initial /\
  (5 <= length loopback_row)%nat /\
  mapping_in_effect initial loopback_row = Some natural /\
  parse_fields natural loopback_row =
    Some (t, "1.2.3.4", 1111, "1.2.3.4", 2222) /\
  loop_body "1.2.3.4" initial loopback_row = Return st' /\
  (exists sec, math_floor t = Return sec /\
     forall k s, count_at (counts st') k s =
       count_at ∅ k s +
       (if decide (k = ("1.2.3.4", 1111) /\ s = sec) then 1 else 0)) /\
  (forall s, count_at (counts st') ("1.2.3.4", 2222) s =
             count_at ∅ ("1.2.3.4", 2222) s).
Proof.
  intros t st'.
  assert (H1 : loop "1.2.3.4" initial [] = Return initial) by reflexivity.
  assert (H2 : (5 <= length loopback_row)%nat) by (cbn; lia).
  assert (H3 : mapping_in_effect initial loopback_row = Some natural)
    by reflexivity.
  assert (H4 : parse_fields natural loopback_row =
               Some (t, "1.2.3.4", 1111, "1.2.3.4", 2222))
    by (vm_compute; reflexivity).
  assert (H5 : loop_body "1.2.3.4" initial loopback_row = Return st')
    by (vm_compute; reflexivity).
  destruct (endpoint_key_source_first "1.2.3.4" [] initial loopback_row
              natural t "1.2.3.4" 1111 "1.2.3.4" 2222 st' H1 H2 H3 H4 H5)
    as (Hsrc & _ & _ & Htie).
  split; [exact H1|]. split; [exact H2|]. split; [exact H3|].
  split; [exact H4|]. split; [exact H5|]. split.
  - exact (Hsrc eq_refl).
  - apply Htie; [reflexivity | reflexivity | lia].
Defined.

Lemma build_series_dense_witness :
  let c : count_table := {[ ("1.2.3.4", 1234) := {[ 100 := 1; 102 := 1 ]} ]} in
  let inner : gmap Z Z := {[ 100 := 1; 102 := 1 ]} in
  parse_csv (Some two_packets_text) "1.2.3.4" = Return (c, 100, 102) /\
  c !! ("1.2.3.4", 1234) = Some inner /\
  build_series inner 100 102 = ([100; 101; 102], [1; 0; 1]) /\
  100 <= 102 /\
  sum_list (snd (build_series inner 100 102)) = raw_total inner.
Proof.
  intros c inner.
  assert (H1 : parse_csv (Some two_packets_text) "1.2.3.4" =
               Return (c, 100, 102)) by (vm_compute; reflexivity).
  assert (H2 : c !! ("1.2.3.4", 1234) = Some inner)
    by (vm_compute; reflexivity).
  split; [exact H1|]. split; [exact H2|].
  split; [vm_compute; reflexivity|].
  exact (proj2 build_series_dense (Some two_packets_text) "1.2.3.4"
           c 100 102 ("1.2.3.4", 1234) inner H1 H2).
Defined.

Lemma malformed_row_discarded_witness :
  let st := decided (header_names tshark_header) natural initial in
  loop "1.2.3.4" initial [tshark_header] = Return st /\
  malformed st bad_time_row /\
  exists st',
    loop_body "1.2.3.4" st bad_time_row = Return st' /\
    counts st' = counts st /\
    min_sec st' = min_sec st /\ max_sec st' = max_sec st /\
    loop "1.2.3.4" initial ([tshark_header] ++ bad_time_row :: [natural_row]) =
    loop "1.2.3.4" st' [natural_row].
Proof.
  intros st.
  assert (H1 : loop "1.2.3.4" initial [tshark_header] = Return st)
    by reflexivity.
  assert (H2 : malformed st bad_time_row).
  { right. exists 0%nat, 1%nat, 2%nat, 3%nat, 4%nat.
    split; [reflexivity|]. left. exists "abc". split; reflexivity. }
  split; [exact H1|]. split; [exact H2|].
  exact (malformed_row_discarded "1.2.3.4" [tshark_header] st bad_time_row
           [natural_row] H1 H2).
Defined.

Lemma no_accepted_row_empty_result_witness :
  accepted "1.2.3.4" initial [tshark_header; foreign_row] = [] /\
  csv_reader (_detect_delimiter (Some foreign_text)) foreign_text =
    ([tshark_header; foreign_row], None) /\
  parse_rows "1.2.3.4" [tshark_header; foreign_row] = Return (∅, 0, 0) /\
  parse_csv (Some foreign_text) "1.2.3.4" = Return (∅, 0, 0).
Proof.
  assert (H1 : accepted "1.2.3.4" initial [tshark_header; foreign_row] = [])
    by (vm_compute; reflexivity).
  assert (H2 : csv_reader (_detect_delimiter (Some foreign_text)) foreign_text
               = ([tshark_header; foreign_row], None))
    by (vm_compute; reflexivity).
  split; [exact H1|]. split; [exact H2|]. split.
  - exact (proj1 (no_accepted_row_empty_result "1.2.3.4") _ H1).
  - exact (proj2 (no_accepted_row_empty_result "1.2.3.4") _ _ H2 H1).
Defined.

Lemma second_is_floor_of_timestamp_witness :
  let t := S754_finite true 4503599627370496 (-53) in
  let k : key := ("1.2.3.4", 1234) in
  let st' := {| header := Some []; mapping := Some natural;
                counts := {[ k := {[ -1 := 1 ]} ]};
                min_sec := Some (-1); max_sec := Some (-1) |} in
  loop "1.2.3.4" initial [] = Return initial /\
  py_float "-0.5" = Some t /\
  passes "1.2.3.4" initial negative_time_row = Some (k, t) /\
  finite t /\
  loop_body "1.2.3.4" initial negative_time_row = Return st' /\
  (exists st'', loop_body "1.2.3.4" initial negative_time_row = Return st'') /\
  exists sec,
    sec = -1 /\
    (inject_Z sec <= value t)%Q /\ (value t < inject_Z (sec + 1))%Q /\
    counts st' = incr (counts initial) k sec /\
    min_sec st' = lower_min (min_sec initial) sec /\
    max_sec st' = raise_max (max_sec initial) sec.
Proof.
  intros t k st'.
  assert (H1 : loop "1.2.3.4" initial [] = Return initial) by reflexivity.
  assert (H2 : passes "1.2.3.4" initial negative_time_row = Some (k, t))
    by (vm_compute; reflexivity).
  assert (H3 : finite t) by exact I.
  assert (H4 : loop_body "1.2.3.4" initial negative_time_row = Return st')
    by (vm_compute; reflexivity).
  destruct (second_is_floor_of_timestamp "1.2.3.4" [] initial
              negative_time_row k t H1 H2) as [Hret Hfloor].
  split; [exact H1|]. split; [vm_compute; reflexivity|].
  split; [exact H2|]. split; [exact H3|]. split; [exact H4|].
  split; [exact (Hret H3)|].
  destruct (Hfloor st' H4) as (sec & Hle & Hlt & Hfl & Hc & Hlo & Hhi).
  exists sec. split; [vm_compute in Hfl; now injection Hfl|].
  split; [exact Hle|]. split; [exact Hlt|]. split; [exact Hc|].
  split; [exact Hlo | exact Hhi].
Defined.

Lemma returned_range_ordered_witness :
  let c : count_table := {[ ("1.2.3.4", 1234) := {[ 100 := 1; 102 := 1 ]} ]} in
  parse_csv (Some two_packets_text) "1.2.3.4" = Return (c, 100, 102) /\
  100 <= 102 /\
  (forall counts_for_key, fst (build_series counts_for_key 100 102) <> []) /\
  exists rows : list row,
    (seconds "1.2.3.4" rows <> [] ->
     100 ∈ seconds "1.2.3.4" rows /\ 102 ∈ seconds "1.2.3.4" rows /\
     Forall (fun s => 100 <= s <= 102) (seconds "1.2.3.4" rows)) /\
    forall sec, stored c sec <-> sec ∈ seconds "1.2.3.4" rows.
Proof.
  intros c.
  assert (H1 : parse_csv (Some two_packets_text) "1.2.3.4" =
               Return (c, 100, 102)) by (vm_compute; reflexivity).
  destruct (returned_range_ordered (Some two_packets_text) "1.2.3.4"
              c 100 102 H1)
    as (text & rows & _ & _ & _ & Hst & Hle & _ & Hin & Hne).
  split; [exact H1|]. split; [exact Hle|]. split; [exact Hne|].
  exists rows. split; [exact Hin | exact Hst].
Defined.

Lemma out_of_range_row_discarded_witness :
  let h := header_names wide_header in
  let m := (5, 1, 2, 3, 4)%nat in
  let st := decided h m initial in
  loop "1.2.3.4" initial [wide_header] = Return st /\
  header st = Some h /\
  mapping st = Some m /\
  (5 <= length natural_row)%nat /\
  out_of_range m natural_row /\
  loop_body "1.2.3.4" st natural_row = Return st /\
  (forall post, loop "1.2.3.4" st (natural_row :: post) =
                loop "1.2.3.4" st post).
Proof.
  intros h m st.
  assert (H1 : header st = Some h) by reflexivity.
  assert (H2 : mapping st = Some m) by reflexivity.
  assert (H3 : (5 <= length natural_row)%nat) by (cbn; lia).
  assert (H4 : out_of_range m natural_row) by (cbn; lia).
  split; [reflexivity|]. split; [exact H1|]. split; [exact H2|].
  split; [exact H3|]. split; [exact H4|].
  exact (out_of_range_row_discarded "1.2.3.4" st natural_row h m H1 H2 H3 H4).
Defined.

(** * Further properties of the code *)

(** ** The table that a pass builds *)

Lemma tally_lookup_key (evs : list (key * Z)) (c : count_table) k :
  is_Some (tally c evs !! k) -> is_Some (c !! k) \/ k ∈ evs.*1.
Proof.
  revert c. induction evs as [|[k' s] evs IH]; intros c; [now left|].
  change (tally c ((k', s) :: evs)) with (tally (incr c k' s) evs).
  intros H. apply IH in H as [H|H].
  - rewrite incr_lookup in H. destruct (decide (k' = k)) as [->|Hne].
    + right. rewrite fmap_cons. now left.
    + now left.
  - right. rewrite fmap_cons. now right.
Qed.

Lemma count_at_tally (evs : list (key * Z)) (c : count_table) k s :
  count_at (tally c evs) k s = count_at c k s + occurrences evs k s.
Proof.
  unfold occurrences. revert c.
  induction evs as [|[k' s'] evs IH]; intros c; [cbn; lia|].
  change (tally c ((k', s') :: evs)) with (tally (incr c k' s') evs).
  rewrite IH, count_at_incr, filter_cons.
  destruct (decide ((k', s') = (k, s))) as [[= -> ->]|Hne].
  - rewrite decide_True by done. cbn [length]. lia.
  - rewrite decide_False; [lia|]. intros [-> ->]. now apply Hne.
Qed.

Lemma positive_counts_incr c k s :
  positive_counts c -> positive_counts (incr c k s).
Proof.
  intros Hc k' inner. rewrite incr_lookup.
  destruct (decide (k = k')) as [<-|Hne]; [|apply Hc].
  intros [= <-]. split.
  - apply insert_non_empty.
  - intros s' v. destruct (decide (s = s')) as [<-|Hs].
    + rewrite lookup_insert_eq. intros [= <-].
      destruct (c !! k) as [inner|] eqn:Hk; cbn.
      * destruct (inner !! s) as [v|] eqn:Hv; cbn; [|lia].
        destruct (Hc k inner Hk) as [_ Hpos]. specialize (Hpos s v Hv). lia.
      * rewrite lookup_empty. cbn. lia.
    + rewrite lookup_insert_ne by assumption.
      destruct (c !! k) as [inner|] eqn:Hk; cbn.
      * intros Hv. destruct (Hc k inner Hk) as [_ Hpos]. now apply (Hpos s').
      * now rewrite lookup_empty.
Qed.

Lemma positive_counts_tally (evs : list (key * Z)) c :
  positive_counts c -> positive_counts (tally c evs).
Proof.
  revert c. induction evs as [|[k s] evs IH]; intros c Hc; [exact Hc|].
  change (tally c ((k, s) :: evs)) with (tally (incr c k s) evs).
  apply IH. now apply positive_counts_incr.
Qed.

Lemma positive_counts_empty : positive_counts ∅.
Proof. intros k inner Hk. now rewrite lookup_empty in Hk. Qed.

Section Table.

Context {B : Builtins}.

Lemma passes_key target st (r : row) k t :
  passes target st r = Some (k, t) -> fst k = target.
Proof.
  unfold passes. destruct (length r <? 5)%nat; [discriminate|].
  destruct (mapping_in_effect st r) as [m|]; [|discriminate]. cbn.
  destruct (parse_fields m r) as [[[[[t' sip] sport] dip] dport]|];
    [|discriminate].
  cbn. unfold endpoint_key.
  destruct (String.eqb sip target); [now intros [= <- _]|].
  destruct (String.eqb dip target); [now intros [= <- _]|discriminate].
Qed.

Lemma accepted_keys target st (rows : list row) :
  Forall (fun e => fst (fst e) = target) (accepted target st rows).
Proof.
  revert st. induction rows as [|r rows IH]; intros st; [constructor|].
  cbn [accepted]. apply Forall_app. split; [|apply IH].
  destruct (passes target st r) as [[k t]|] eqn:Hp; [|constructor].
  constructor; [|constructor]. cbn. now apply passes_key in Hp.
Qed.

Lemma events_keys target st (rows : list row) :
  Forall (fun e => fst (fst e) = target) (events target st rows).
Proof.
  unfold events. pose proof (accepted_keys target st rows) as Hacc.
  rewrite Forall_forall in Hacc. apply Forall_forall. intros e He.
  apply list_elem_of_omap in He as (a & Ha & Hf).
  unfold floor_of in Hf. destruct (math_floor (snd a)); [|discriminate].
  injection Hf as <-. cbn. now apply Hacc.
Qed.

(** X1: every key of the table that [parse_csv] returns has the target
    address as its address, so two keys of the table with the same port
    are the same key. *)
Theorem table_keys_are_target path target c lo hi :
  parse_csv path target = Return (c, lo, hi) ->
  (forall k, is_Some (c !! k) -> fst k = target) /\
  (forall k1 k2, is_Some (c !! k1) -> is_Some (c !! k2) ->
                 snd k1 = snd k2 -> k1 = k2).
Proof.
  intros Hp. apply parse_csv_inv in Hp as (text & rows & -> & _ & Hp).
  destruct (parse_rows_range _ _ _ _ _ Hp) as (_ & -> & _).
  assert (Hkey : forall k, is_Some (tally ∅ (events target initial rows) !! k)
                           -> fst k = target).
  { intros k Hk. apply tally_lookup_key in Hk as [Hk|Hk].
    - rewrite lookup_empty in Hk. now destruct Hk.
    - apply list_elem_of_fmap in Hk as (e & -> & He).
      pose proof (events_keys target initial rows) as Hall.
      rewrite Forall_forall in Hall. now apply Hall. }
  split; [exact Hkey|].
  intros [ip1 p1] [ip2 p2] H1 H2. cbn. intros <-.
  apply Hkey in H1, H2. cbn in H1, H2. congruence.
Qed.

(** X2: in the table that [parse_csv] returns, the count stored for a
    key and a second is the number of accepted rows with that key whose
    timestamp has that second as its floor (0 when nothing is stored),
    and every accepted row is among them. *)
Theorem count_is_number_of_packets path target c lo hi :
  parse_csv path target = Return (c, lo, hi) ->
  exists text (rows : list row),
    path = Some text /\
    csv_reader (_detect_delimiter path) text = (rows, None) /\
    length (events target initial rows) =
      length (accepted target initial rows) /\
    forall k s, count_at c k s = occurrences (events target initial rows) k s.
Proof.
  intros Hp. apply parse_csv_inv in Hp as (text & rows & -> & Hr & Hp).
  exists text, rows. split; [reflexivity|]. split; [exact Hr|].
  apply parse_rows_inv in Hp as (st & Hl & -> & _).
  destruct (loop_events _ _ _ _ initial_ok Hl) as (Hlen & Hc & _).
  split; [exact Hlen|]. intros k s. rewrite Hc, count_at_tally.
  unfold count_at. cbn. rewrite lookup_empty. cbn. lia.
Qed.

(** X3: the table that [parse_csv] returns has no key without a stored
    second and no stored count below 1: entries exist only where a
    packet was counted. *)
Theorem table_counts_positive path target c lo hi :
  parse_csv path target = Return (c, lo, hi) ->
  forall k inner, c !! k = Some inner ->
    inner <> ∅ /\ forall s v, inner !! s = Some v -> 1 <= v.
Proof.
  intros Hp. apply parse_csv_inv in Hp as (text & rows & -> & _ & Hp).
  destruct (parse_rows_range _ _ _ _ _ Hp) as (_ & -> & _).
  apply positive_counts_tally, positive_counts_empty.
Qed.

(** X4: reading more rows never lowers a count and never narrows the
    range: after a longer pass every count is at least what it was
    after the shorter one, the least second is not above and the
    greatest second not below. *)
Theorem pass_only_grows target (rows more : list row) st1 st2 :
  loop target initial rows = Return st1 ->
  loop target initial (rows ++ more) = Return st2 ->
  (forall k s, count_at (counts st1) k s <= count_at (counts st2) k s) /\
  (forall lo1, min_sec st1 = Some lo1 ->
               exists lo2, min_sec st2 = Some lo2 /\ lo2 <= lo1) /\
  (forall hi1, max_sec st1 = Some hi1 ->
               exists hi2, max_sec st2 = Some hi2 /\ hi1 <= hi2).
Proof.
  intros H1 H2. rewrite loop_app, H1 in H2. cbn in H2.
  pose proof (loop_layout_ok _ _ _ _ initial_ok H1) as Hok.
  destruct (loop_events _ _ _ _ Hok H2) as (_ & Hc & Hlo & Hhi).
  split; [|split].
  - intros k s. rewrite Hc, count_at_tally. unfold occurrences. lia.
  - intros lo1 E. rewrite E in Hlo.
    destruct (lower_min_fold (events target st1 more).*2 lo1)
      as (lo2 & E2 & Hle & _).
    exists lo2. split; [congruence | exact Hle].
  - intros hi1 E. rewrite E in Hhi.
    destruct (raise_max_fold (events target st1 more).*2 hi1)
      as (hi2 & E2 & Hle & _).
    exists hi2. split; [congruence | exact Hle].
Qed.

(** X5: the floor is taken outside the [try] block, so a row that
    passes the endpoint filter with a timestamp that is not finite
    stops the pass: [parse_csv] raises [ValueError] on a NaN and
    [OverflowError] on an infinity, whatever rows follow. *)
Theorem nonfinite_timestamp_raises target (pre : list row) st (r : row)
    (post : list row) k t :
  loop target initial pre = Return st ->
  passes target st r = Some (k, t) ->
  let e := match t with S754_nan => ValueError | _ => OverflowError end in
  ~ finite t ->
  loop target initial (pre ++ r :: post) = Raise e /\
  forall text failure,
    csv_reader (_detect_delimiter (Some text)) text
      = ((pre ++ r :: post)%list, failure) ->
    parse_csv (Some text) target = Raise e.
Proof.
  intros Hpre Hpass e Hfin.
  pose proof (loop_layout_ok _ _ _ _ initial_ok Hpre) as Hok.
  assert (Hb : loop_body target st r = Raise e).
  { rewrite loop_body_passes, Hpass by assumption. unfold record_packet.
    destruct t; cbn in Hfin |- *; try reflexivity; now destruct Hfin. }
  assert (Hl : loop target initial (pre ++ r :: post) = Raise e).
  { rewrite loop_app, Hpre. cbn. now rewrite Hb. }
  split; [exact Hl|]. intros text failure Hr.
  unfold parse_csv, parse_rows. now rewrite Hr, Hl.
Qed.

End Table.

(** ** The order of the rows *)

Lemma incr_comm (c : count_table) k1 s1 k2 s2 :
  incr (incr c k1 s1) k2 s2 = incr (incr c k2 s2) k1 s1.
Proof.
  apply map_eq. intros k. rewrite !incr_lookup.
  repeat case_decide; simplify_eq; cbn; try reflexivity.
  f_equal. destruct (decide (s1 = s2)) as [->|Hs]; [reflexivity|].
  rewrite !lookup_insert_ne by congruence.
  now rewrite insert_insert_ne.
Qed.

Lemma lower_min_comm o a b :
  lower_min (lower_min o a) b = lower_min (lower_min o b) a.
Proof.
  destruct o as [m|]; cbn.
  - destruct (Z.ltb_spec a m), (Z.ltb_spec b m); cbn;
      repeat (match goal with |- context [(?x <? ?y)] =>
                destruct (Z.ltb_spec x y) end); f_equal; lia.
  - destruct (Z.ltb_spec b a), (Z.ltb_spec a b); f_equal; lia.
Qed.

Lemma raise_max_comm o a b :
  raise_max (raise_max o a) b = raise_max (raise_max o b) a.
Proof.
  destruct o as [m|]; cbn.
  - destruct (Z.ltb_spec m a), (Z.ltb_spec m b); cbn;
      repeat (match goal with |- context [(?x <? ?y)] =>
                destruct (Z.ltb_spec x y) end); f_equal; lia.
  - destruct (Z.ltb_spec b a), (Z.ltb_spec a b); f_equal; lia.
Qed.

Section Order.

Context {B : Builtins}.

Lemma loop_body_decided target st (r : row) :
  is_Some (header st) -> is_Some (mapping st) ->
  loop_body target st r =
  match passes target st r with
  | None => Return st
  | Some (k, t) => record_packet st k t
  end.
Proof.
  intros Hh Hm. rewrite loop_body_passes by (intros _; exact Hm).
  now rewrite next_layout_fixed.
Qed.

Lemma loop_body_keeps_layout target st (r : row) st' :
  is_Some (header st) -> is_Some (mapping st) ->
  loop_body target st r = Return st' ->
  header st' = header st /\ mapping st' = mapping st.
Proof.
  intros Hh Hm Hb.
  destruct (loop_body_layout target st r st' (fun _ => Hm) Hb) as (H1 & H2 & _).
  now rewrite next_layout_fixed in H1, H2.
Qed.

(** Two data rows can change places. *)
Lemma loop_body_swap target st (x y : row) s1 s2 :
  is_Some (header st) -> is_Some (mapping st) ->
  loop_body target st x = Return s1 ->
  loop_body target s1 y = Return s2 ->
  exists s1', loop_body target st y = Return s1' /\
              loop_body target s1' x = Return s2.
Proof.
  intros Hh Hm Hx Hy.
  destruct (loop_body_keeps_layout _ _ _ _ Hh Hm Hx) as [Hh1 Hm1].
  assert (Hh1' : is_Some (header s1)) by now rewrite Hh1.
  assert (Hm1' : is_Some (mapping s1)) by now rewrite Hm1.
  rewrite loop_body_decided in Hx, Hy by assumption.
  rewrite (passes_layout target s1 st y Hh1 Hm1) in Hy.
  rewrite (loop_body_decided target st y) by assumption.
  destruct (passes target st y) as [[ky ty]|] eqn:Hpy.
  - destruct (passes target st x) as [[kx tx]|] eqn:Hpx.
    + apply record_packet_inv in Hx as (sx & Hfx & ->).
      apply record_packet_inv in Hy as (sy & Hfy & ->). cbn.
      unfold record_packet at 1. rewrite Hfy. cbn.
      eexists. split; [reflexivity|].
      rewrite loop_body_decided by assumption.
      erewrite passes_layout; [rewrite Hpx | reflexivity | reflexivity].
      unfold record_packet. rewrite Hfx. cbn.
      now rewrite incr_comm, lower_min_comm, raise_max_comm.
    + injection Hx as <-. exists s2. split; [exact Hy|].
      apply record_packet_inv in Hy as (sy & Hfy & ->).
      rewrite loop_body_decided by assumption.
      erewrite passes_layout; [rewrite Hpx | reflexivity | reflexivity].
      reflexivity.
  - injection Hy as <-. exists st. split; [reflexivity|].
    now rewrite loop_body_decided.
Qed.

(** X6: once the layout is decided, the order of the rows does not
    matter: a pass over the same rows in another order returns the
    same table and the same range. *)
Theorem data_rows_commute target st (rows rows' : list row) st' :
  is_Some (header st) -> is_Some (mapping st) ->
  rows ≡ₚ rows' ->
  loop target st rows = Return st' ->
  loop target st rows' = Return st'.
Proof.
  intros Hh Hm Hperm. revert st st' Hh Hm.
  induction Hperm as [|x l l' _ IH|x y l|l l' l'' _ IH1 _ IH2];
    intros st st' Hh Hm.
  - auto.
  - cbn [loop]. destruct (loop_body target st x) as [s1|e] eqn:Hx;
      [|discriminate].
    cbn. destruct (loop_body_keeps_layout _ _ _ _ Hh Hm Hx) as [Hh1 Hm1].
    apply IH; [now rewrite Hh1 | now rewrite Hm1].
  - cbn [loop].
    destruct (loop_body target st y) as [s1|e] eqn:Hy; [|discriminate].
    cbn. destruct (loop_body target s1 x) as [s2|e] eqn:Hx; [|discriminate].
    cbn. intros Hl.
    destruct (loop_body_swap _ _ _ _ _ _ Hh Hm Hy Hx) as (s1' & -> & Hy').
    cbn. now rewrite Hy'.
  - intros Hl. apply IH2; [assumption..|]. now apply IH1.
Qed.

End Order.

(** ** Delimiter detection and the text *)

Lemma count_nonneg c s : 0 <= Str.count c s.
Proof. induction s as [|d s IH]; cbn; [lia|]. destruct (Ascii.eqb c d); lia. Qed.

Lemma count_app c s1 s2 :
  Str.count c (s1 ++ s2) = Str.count c s1 + Str.count c s2.
Proof.
  induction s1 as [|d s1 IH]; [reflexivity|].
  change (Str.count c (String d s1 ++ s2))
    with ((if Ascii.eqb c d then 1 else 0) + Str.count c (s1 ++ s2)).
  rewrite IH. cbn [Str.count]. lia.
Qed.

Lemma count_absent c s : Str.contains c s = false -> Str.count c s = 0.
Proof.
  unfold Str.contains. induction s as [|d s IH]; cbn; [reflexivity|].
  destruct (Ascii.eqb c d); [discriminate|]. cbn. intros H. now rewrite IH.
Qed.

(** A line and what is left make up the text. *)
Lemma readline_split f : f = fst (readline f) ++ snd (readline f).
Proof.
  induction f as [|c f IH]; [reflexivity|]. cbn [readline].
  destruct (Ascii.eqb c Char.lf); [reflexivity|].
  destruct (Ascii.eqb c Char.cr).
  - destruct f as [|d f']; [reflexivity|].
    destruct (Ascii.eqb d Char.lf); reflexivity.
  - destruct (readline f) as [l r]. cbn [fst snd] in *.
    change (String c f = String c (l ++ r)). now rewrite <- IH.
Qed.

Lemma sniff_line_result line d :
  sniff_line line = Some d ->
  (d = Char.tab /\ 0 < Str.count Char.tab line) \/ d = Char.comma.
Proof.
  unfold sniff_line. destruct (Str.is_empty (Str.strip line)); [discriminate|].
  pose proof (count_nonneg Char.tab line) as Ht.
  pose proof (count_nonneg Char.comma line) as Hc.
  set (tabs := Str.count Char.tab line) in *.
  set (commas := Str.count Char.comma line) in *.
  destruct (negb (tabs =? 0) || negb (commas =? 0)) eqn:E; [|discriminate].
  intros [= <-]. destruct (Z.leb_spec commas tabs); [left | now right].
  split; [reflexivity|].
  apply orb_true_iff in E as [E|E]; apply negb_true_iff, Z.eqb_neq in E; lia.
Qed.

Lemma detect_loop_result n f :
  (detect_loop n f = Char.tab /\ 0 < Str.count Char.tab f)
  \/ detect_loop n f = Char.comma.
Proof.
  revert f. induction n as [|n IH]; intros f; [now right|].
  cbn [detect_loop]. pose proof (readline_split f) as Hsplit.
  destruct (readline f) as [line rest]. cbn in Hsplit.
  destruct (Str.is_empty line); [now right|].
  pose proof (count_nonneg Char.tab line).
  pose proof (count_nonneg Char.tab rest).
  assert (Hc : Str.count Char.tab f =
               Str.count Char.tab line + Str.count Char.tab rest)
    by (rewrite Hsplit at 1; apply count_app).
  destruct (sniff_line line) as [d|] eqn:Hs.
  - apply sniff_line_result in Hs as [[-> Ht]| ->]; [left; split; [reflexivity|lia] | now right].
  - destruct (IH rest) as [[-> Ht]| ->]; [left; split; [reflexivity|lia] | now right].
Qed.

(** X7: [_detect_delimiter] returns TAB or COMMA and nothing else, and
    it returns TAB only for a text that has a TAB: a file without any
    TAB is read with COMMA. *)
Theorem detect_delimiter_tab_needs_tab (path : file) :
  (_detect_delimiter path = Char.tab \/ _detect_delimiter path = Char.comma) /\
  (forall text, path = Some text ->
     Str.contains Char.tab text = false ->
     _detect_delimiter path = Char.comma).
Proof.
  destruct path as [text|]; cbn [_detect_delimiter].
  - split.
    + destruct (detect_loop_result 50 text) as [[-> _]| ->]; auto.
    + intros text' [= <-] Hno. apply count_absent in Hno.
      destruct (detect_loop_result 50 text) as [[_ Ht]| ->]; [lia | reflexivity].
  - split; [now right | discriminate].
Qed.

(** ** Series *)

(** X8: the series over a range is the series over its first part
    followed by the series over the rest. *)
Theorem build_series_split (counts_for_key : gmap Z Z) lo mid hi :
  lo - 1 <= mid <= hi ->
  build_series counts_for_key lo hi =
  ((fst (build_series counts_for_key lo mid) ++
    fst (build_series counts_for_key (mid + 1) hi))%list,
   (snd (build_series counts_for_key lo mid) ++
    snd (build_series counts_for_key (mid + 1) hi))%list).
Proof.
  intros Hmid. unfold build_series, py_range. cbn [fst snd].
  replace (hi + 1 - lo) with ((mid + 1 - lo) + (hi + 1 - (mid + 1))) by lia.
  rewrite seqZ_app by lia. rewrite map_app.
  replace (lo + (mid + 1 - lo)) with (mid + 1) by lia. reflexivity.
Qed.

Lemma zip_with_values (f : Z -> Z) (xs : list Z) :
  zip xs (map f xs) = map (fun s => (s, f s)) xs.
Proof. induction xs as [|x xs IH]; cbn; [reflexivity|]. now rewrite IH. Qed.

(** Dropping the zeros of a dense series gives back the stored
    counts, when these are not zero and lie in the range. *)
Lemma sparse_of_dense (inner : gmap Z Z) lo n :
  (forall s v, inner !! s = Some v -> lo <= s < lo + n /\ v <> 0) ->
  list_to_map
    (filter (fun p : Z * Z => snd p <> 0)
       (map (fun s => (s, default 0 (inner !! s))) (seqZ lo n))) = inner.
Proof.
  intros Hin. apply map_eq. intros s.
  set (l := filter _ _).
  assert (Hnd : NoDup l.*1).
  { unfold l. apply NoDup_fmap_fst.
    - intros x y1 y2 H1 H2.
      apply list_elem_of_filter in H1 as [_ H1], H2 as [_ H2].
      apply list_elem_of_fmap in H1 as (s1 & [= -> ->] & _).
      apply list_elem_of_fmap in H2 as (s2 & [= -> ->] & _). reflexivity.
    - apply NoDup_filter. apply NoDup_fmap_2_strong; [|apply NoDup_seqZ].
      now intros x y _ _ [= ->]. }
  destruct (inner !! s) as [v|] eqn:Hs.
  - apply elem_of_list_to_map; [exact Hnd|]. unfold l.
    destruct (Hin s v Hs) as [Hr Hv].
    apply list_elem_of_filter. split; [exact Hv|].
    apply list_elem_of_fmap. exists s. rewrite Hs. split; [reflexivity|].
    now apply elem_of_seqZ.
  - apply not_elem_of_list_to_map. unfold l. intros Hs'.
    apply list_elem_of_fmap in Hs' as ([s' v] & -> & Hp).
    apply list_elem_of_filter in Hp as [Hv Hp]. cbn in Hv, Hs.
    apply list_elem_of_fmap in Hp as (s'' & [= -> ->] & _).
    rewrite Hs in Hv. now apply Hv.
Qed.

Section RoundTrip.

Context {B : Builtins}.

(** X9: nothing is lost in the dense series.  For a key of the table
    that [parse_csv] returns, over the range it returns, the pairs
    [(xs[i], ys[i])] with a count that is not 0 are the stored entries
    of the key. *)
Theorem series_round_trip path target c lo hi k (counts_for_key : gmap Z Z) :
  parse_csv path target = Return (c, lo, hi) ->
  c !! k = Some counts_for_key ->
  list_to_map
    (filter (fun p : Z * Z => snd p <> 0)
       (zip (fst (build_series counts_for_key lo hi))
            (snd (build_series counts_for_key lo hi))))
  = counts_for_key.
Proof.
  intros Hp Hk.
  apply parse_csv_inv in Hp as (text & rows & -> & _ & Hp).
  destruct (parse_rows_range _ _ _ _ _ Hp) as (_ & Hc & Hst & _ & _ & Hne).
  unfold build_series, py_range. cbn [fst snd].
  rewrite zip_with_values. apply sparse_of_dense. intros s v Hv.
  split.
  - assert (Hin : s ∈ seconds target rows) by (apply Hst; exists k, counts_for_key; eauto).
    destruct (seconds target rows) as [|s0 l] eqn:Hsecs;
      [now apply elem_of_nil in Hin|].
    destruct Hne as (_ & _ & Hall); [discriminate|].
    rewrite Forall_forall in Hall. specialize (Hall s Hin). lia.
  - assert (Hpos : positive_counts c)
      by (rewrite Hc; apply positive_counts_tally, positive_counts_empty).
    destruct (Hpos k _ Hk) as [_ Hge]. specialize (Hge s v Hv). lia.
Qed.

End RoundTrip.

(** ** Sorting the keys *)

Lemma sorted_by_port_cons k keys :
  sorted_by_port (k :: keys) = insert_by_port k (sorted_by_port keys).
Proof. reflexivity. Qed.

Lemma insert_by_port_perm k keys : insert_by_port k keys ≡ₚ k :: keys.
Proof.
  induction keys as [|k' keys IH]; cbn; [reflexivity|].
  destruct (snd k <=? snd k'); [reflexivity|].
  rewrite IH. apply Permutation_swap.
Qed.

Lemma sorted_by_port_perm keys : sorted_by_port keys ≡ₚ keys.
Proof.
  induction keys as [|k keys IH]; [reflexivity|].
  rewrite sorted_by_port_cons, insert_by_port_perm. now constructor.
Qed.

Lemma insert_by_port_sorted k keys :
  Sorted port_le keys -> Sorted port_le (insert_by_port k keys).
Proof.
  induction 1 as [|k' keys Hs IH Hhd]; cbn.
  - repeat constructor.
  - destruct (Z.leb_spec (snd k) (snd k')) as [Hle|Hlt].
    + constructor; [now constructor | now constructor].
    + constructor; [exact IH|].
      destruct keys as [|k'' keys]; cbn.
      * constructor. unfold port_le. lia.
      * destruct (snd k <=? snd k''); constructor;
          [unfold port_le; lia | now inversion Hhd].
Qed.

Lemma sorted_by_port_sorted keys : Sorted port_le (sorted_by_port keys).
Proof.
  induction keys as [|k keys IH]; [constructor|].
  rewrite sorted_by_port_cons. now apply insert_by_port_sorted.
Qed.

#[local] Instance port_le_trans : Transitive port_le.
Proof. intros a b c. unfold port_le. lia. Qed.

(** Keys with different ports have one order by port. *)
Lemma sorted_by_port_unique (keys1 keys2 : list key) :
  keys1 ≡ₚ keys2 -> NoDup keys1.*2 ->
  sorted_by_port keys1 = sorted_by_port keys2.
Proof.
  intros Hperm Hnd. apply (Sorted_unique_strong port_le).
  - intros x1 x2 H1 H2 Hle Hge.
    rewrite sorted_by_port_perm in H1.
    rewrite sorted_by_port_perm, <- Hperm in H2.
    assert (Hp : snd x1 = snd x2) by (unfold port_le in *; lia).
    clear Hle Hge Hperm. induction keys1 as [|k keys IH]; [inversion H1|].
    rewrite fmap_cons in Hnd. apply NoDup_cons in Hnd as [Hk Hnd].
    apply elem_of_cons in H1 as [->|H1], H2 as [->|H2]; auto.
    + destruct Hk. rewrite Hp. now apply list_elem_of_fmap_2.
    + destruct Hk. rewrite <- Hp. now apply list_elem_of_fmap_2.
  - apply sorted_by_port_sorted.
  - apply sorted_by_port_sorted.
  - now rewrite !sorted_by_port_perm.
Qed.

(** ** What is plotted *)

Lemma dict_get_item (counts : items) k inner :
  NoDup counts.*1 -> (k, inner) ∈ counts -> dict_get counts k = inner.
Proof.
  intros Hnd Hin. unfold dict_get.
  now rewrite (elem_of_list_to_map_1 counts k inner Hnd Hin).
Qed.

Lemma items_of_keys (counts : items) :
  NoDup counts.*1 ->
  (fun k => (k, dict_get counts k)) <$> counts.*1 = counts.
Proof.
  intros Hnd. rewrite <- list_fmap_compose.
  rewrite <- (list_fmap_id counts) at 2. apply list_fmap_ext.
  intros i [k inner] Hi. cbn. f_equal. apply dict_get_item; [exact Hnd|].
  eapply list_elem_of_lookup_2. exact Hi.
Qed.

Lemma select_port_NoDup pf (counts : items) :
  NoDup counts.*1 -> NoDup (select_port pf counts).*1.
Proof.
  intros Hnd. destruct pf as [p|]; [|exact Hnd]. cbn.
  eapply sublist_NoDup; [exact Hnd|].
  apply fmap_sublist, sublist_filter.
Qed.

Lemma select_port_perm pf (counts1 counts2 : items) :
  counts1 ≡ₚ counts2 -> select_port pf counts1 ≡ₚ select_port pf counts2.
Proof. intros H. destruct pf; cbn; [now rewrite H | exact H]. Qed.

Section Plots.

Context {FS : FileSystem}.

Lemma steps_app (t1 t2 : list event) : steps (t1 ++ t2) = (steps t1 ++ steps t2)%list.
Proof. apply omap_app. Qed.

Lemma steps_save_or_show sp : steps (save_or_show sp) = [].
Proof. now destruct sp. Qed.

Lemma steps_plot_step (counts : items) lo hi (keys : list key) :
  steps (map (plot_step counts lo hi) keys) =
  map (fun k => series_of lo hi k (dict_get counts k)) keys.
Proof. induction keys as [|k keys IH]; cbn; [reflexivity|]. now rewrite <- IH. Qed.

(** The [Step] events of [plot_counts], for any dict. *)
Lemma steps_plot_counts (counts : items) lo hi target sp pf :
  steps (plot_counts counts lo hi target sp pf) =
  map (fun k => series_of lo hi k (dict_get (select_port pf counts) k))
      (sorted_by_port (select_port pf counts).*1).
Proof.
  unfold plot_counts. destruct (select_port pf counts) as [|kv sel] eqn:Hsel;
    [reflexivity|].
  change (Subplots :: ?l) with ([Subplots] ++ l)%list.
  rewrite !steps_app, steps_plot_step, steps_save_or_show.
  cbn. now rewrite app_nil_r.
Qed.

(** X10: [plot_counts] draws one series for each key that the port
    filter lets through, in the order of the ports, and the series of a
    key is what [build_series] gives for its counts over the range,
    labelled with its port. *)
Theorem plot_draws_sorted_series (counts : items) lo hi target sp pf :
  NoDup counts.*1 ->
  exists drawn : items,
    drawn ≡ₚ select_port pf counts /\
    Sorted port_le drawn.*1 /\
    steps (plot_counts counts lo hi target sp pf) =
    map (fun kv => series_of lo hi (fst kv) (snd kv)) drawn.
Proof.
  intros Hnd. set (sel := select_port pf counts).
  pose proof (select_port_NoDup pf counts Hnd) as Hsel. fold sel in Hsel.
  exists ((fun k => (k, dict_get sel k)) <$> sorted_by_port sel.*1).
  split; [|split].
  - rewrite sorted_by_port_perm. now rewrite items_of_keys.
  - rewrite <- list_fmap_compose.
    rewrite (list_fmap_ext _ id (sorted_by_port sel.*1)) by reflexivity.
    rewrite list_fmap_id. apply sorted_by_port_sorted.
  - rewrite steps_plot_counts. fold sel.
    change (map ?f ((fun k => (k, dict_get sel k)) <$> ?l))
      with (f <$> ((fun k => (k, dict_get sel k)) <$> l)).
    now rewrite <- list_fmap_compose.
Qed.

(** X11: for a dict whose keys have different ports, the events of
    [plot_counts] do not depend on the order in which the keys were
    inserted. *)
Theorem plot_order_irrelevant (counts1 counts2 : items) lo hi target sp pf :
  counts1 ≡ₚ counts2 ->
  NoDup counts1.*1.*2 ->
  plot_counts counts1 lo hi target sp pf =
  plot_counts counts2 lo hi target sp pf.
Proof.
  intros Hperm Hports.
  pose proof (select_port_perm pf _ _ Hperm) as Hsel.
  assert (Hnd1 : NoDup (select_port pf counts1).*1).
  { apply select_port_NoDup. now apply NoDup_fmap_1 in Hports. }
  assert (Hports' : NoDup (select_port pf counts1).*1.*2).
  { destruct pf as [p|]; [|exact Hports]. cbn.
    eapply sublist_NoDup; [exact Hports|].
    do 2 apply fmap_sublist. apply sublist_filter. }
  unfold plot_counts.
  destruct (select_port pf counts1) as [|kv1 sel1] eqn:E1.
  - apply Permutation_nil in Hsel. now rewrite Hsel.
  - destruct (select_port pf counts2) as [|kv2 sel2] eqn:E2.
    { symmetry in Hsel. now apply Permutation_nil in Hsel. }
    assert (Hkeys : sorted_by_port (kv1 :: sel1).*1 =
                    sorted_by_port (kv2 :: sel2).*1).
    { apply sorted_by_port_unique; [now rewrite Hsel | exact Hports']. }
    assert (Hget : forall k, dict_get (kv1 :: sel1) k = dict_get (kv2 :: sel2) k).
    { intros k. unfold dict_get.
      now rewrite (list_to_map_proper _ _ Hnd1 Hsel). }
    rewrite Hkeys. f_equal. f_equal.
    apply list_fmap_ext. intros i k _. unfold plot_step.
    now rewrite Hget.
Qed.

End Plots.

(** ** One port of the table *)

Lemma at_most_one {A} (l : list A) a :
  NoDup l -> (forall x, x ∈ l -> x = a) -> l = [] \/ l = [a].
Proof.
  intros Hnd Hall. destruct l as [|x l]; [now left|]. right.
  assert (x = a) by (apply Hall; now left). subst x.
  destruct l as [|y l]; [reflexivity|].
  assert (y = a) by (apply Hall; right; now left). subst y.
  apply NoDup_cons in Hnd as [Hnot _]. destruct Hnot. now left.
Qed.

Section OnePort.

Context {FS : FileSystem} {B : Builtins}.

Lemma parse_csv_keys path target c lo hi k :
  parse_csv path target = Return (c, lo, hi) ->
  is_Some (c !! k) -> fst k = target.
Proof.
  intros Hp Hk. apply parse_csv_inv in Hp as (text & rows & -> & _ & Hp).
  destruct (parse_rows_range _ _ _ _ _ Hp) as (_ & -> & _).
  apply tally_lookup_key in Hk as [Hk|Hk].
  - rewrite lookup_empty in Hk. now destruct Hk.
  - apply list_elem_of_fmap in Hk as (e & -> & He).
    pose proof (events_keys target initial rows) as Hall.
    rewrite Forall_forall in Hall. now apply Hall.
Qed.

(** The items of one port of the table that [parse_csv] returns. *)
Lemma select_port_of_table path target c lo hi p :
  parse_csv path target = Return (c, lo, hi) ->
  select_port (Some p) (map_to_list c) =
  match c !! (target, p) with
  | Some inner => [((target, p), inner)]
  | None => []
  end.
Proof.
  intros Hp. cbn [select_port].
  set (l := filter _ _).
  assert (Hin : forall k v, (k, v) ∈ l <-> k = (target, p) /\ c !! (target, p) = Some v).
  { intros [ip q] v. unfold l. rewrite list_elem_of_filter, elem_of_map_to_list.
    cbn. split.
    - intros [<- Hk].
      assert (ip = target)
        by (apply (parse_csv_keys _ _ _ _ _ (ip, q) Hp); eauto).
      subst ip. auto.
    - intros [[= -> ->] Hk]. auto. }
  assert (Hnd : NoDup l) by (apply NoDup_filter, NoDup_map_to_list).
  destruct (c !! (target, p)) as [inner|] eqn:Hk.
  - destruct (at_most_one l ((target, p), inner) Hnd) as [E|E].
    + intros [k v] Hx. apply Hin in Hx as [-> [= ->]]. reflexivity.
    + assert (H : ((target, p), inner) ∈ l) by now apply Hin.
      rewrite E in H. now apply elem_of_nil in H.
    + exact E.
  - destruct l as [|[k v] l']; [reflexivity|].
    assert (H : (k, v) ∈ (k, v) :: l') by now left.
    apply Hin in H as [_ H]. discriminate.
Qed.

(** X12: with a port filter, on the table and the range that
    [parse_csv] returns, [plot_counts] draws the series of that port
    alone, as [build_series] gives it, under the title of the one
    address and port; when the table has no entry for the port, it
    prints the notice that names the port and draws nothing. *)
Theorem plot_one_port path target c lo hi p sp :
  parse_csv path target = Return (c, lo, hi) ->
  plot_counts (map_to_list c) lo hi target sp (Some p) =
  match c !! (target, p) with
  | Some inner =>
      (Subplots ::
       Step (fst (build_series inner lo hi)) (snd (build_series inner lo hi))
            ("port " ++ str_int p) ::
       SetTitle ("Packets/sec for " ++ target ++ ":" ++ str_int p) ::
       SetYLabel "pps" :: SetXLabel "seconds" :: Grid :: Legend ::
       TightLayout :: save_or_show sp)%list
  | None =>
      [Print ("No packets found for " ++ target ++ " on port " ++ str_int p
              ++ ". Nothing to plot.")]
  end.
Proof.
  intros Hp. unfold plot_counts.
  rewrite (select_port_of_table _ _ _ _ _ p Hp).
  destruct (c !! (target, p)) as [inner|]; [|reflexivity].
  cbn [fmap list_fmap fst sorted_by_port foldr insert_by_port map app
       plot_title snd].
  unfold plot_step, dict_get. cbn [list_to_map foldr fst snd curry uncurry].
  rewrite lookup_insert_eq. reflexivity.
Qed.

End OnePort.

(** ** The arguments of [main] *)

Section Main.

Context {FS : FileSystem} {B : Builtins}.

Lemma named_option_is_option arg :
  String.eqb arg "--ip" || String.eqb arg "--save" || String.eqb arg "--port"
    = true ->
  is_option arg = true.
Proof.
  intros H. apply orb_true_iff in H as [H|H];
    [apply orb_true_iff in H as [H|H]|]; apply String.eqb_eq in H; now subst.
Qed.

Lemma parse_args_app_le n (pre rest : list string) o o' :
  (length pre <= n)%nat ->
  parse_args pre o = inl o' ->
  parse_args (pre ++ rest) o = parse_args rest o'.
Proof.
  revert pre o. induction n as [|n IH]; intros pre o Hlen Hpre.
  - destruct pre; [|cbn in Hlen; lia]. cbn in Hpre. now injection Hpre as <-.
  - destruct pre as [|arg tl]; [cbn in Hpre; now injection Hpre as <-|].
    destruct tl as [|v tl'].
    + cbn [parse_args] in Hpre.
      destruct (is_option arg) eqn:Hopt; [discriminate|].
      injection Hpre as <-. cbn [app].
      destruct rest as [|v rest']; [cbn; now rewrite Hopt|].
      cbn [parse_args].
      destruct (String.eqb arg "--ip") eqn:E1;
        [rewrite named_option_is_option in Hopt by (now rewrite E1); discriminate|].
      destruct (String.eqb arg "--save") eqn:E2;
        [rewrite named_option_is_option in Hopt by (now rewrite E1, E2); discriminate|].
      destruct (String.eqb arg "--port") eqn:E3;
        [rewrite named_option_is_option in Hopt
           by (rewrite E1, E2, E3; reflexivity); discriminate|].
      now rewrite Hopt.
    + cbn [app parse_args] in Hpre |- *. cbn in Hlen.
      destruct (String.eqb arg "--ip"); [apply IH; [lia | exact Hpre]|].
      destruct (String.eqb arg "--save"); [apply IH; [lia | exact Hpre]|].
      destruct (String.eqb arg "--port").
      * destruct (py_int v); [apply IH; [lia | exact Hpre] | discriminate].
      * destruct (is_option arg); [discriminate|].
        apply (IH (v :: tl')); [cbn; lia | exact Hpre].
Qed.

(** X13: the arguments are read from left to right, and what has been
    read is all that is kept of them: after a list of arguments that is
    read to its end, the arguments that follow are read as on their
    own, from the options read so far.  So a later [--ip] replaces an
    earlier one. *)
Theorem parse_args_app (pre : list string) o o' :
  parse_args pre o = inl o' ->
  (forall rest, parse_args (pre ++ rest) o = parse_args rest o') /\
  (forall v, parse_args (pre ++ ["--ip"; v]) o =
             inl {| target_ip := v; csv_path := csv_path o';
                    save_path := save_path o'; port_filter := port_filter o' |}).
Proof.
  intros Hpre.
  assert (Happ : forall rest, parse_args (pre ++ rest) o = parse_args rest o')
    by (intros rest; now apply (parse_args_app_le (length pre))).
  split; [exact Happ|]. intros v. now rewrite Happ.
Qed.



Lemma parse_rows_nothing_accepted target (rows : list row) :
  accepted target initial rows = [] ->
  parse_rows target rows = Return (∅, 0, 0).
Proof.
  intros Hacc.
  destruct (loop_returns target initial rows initial_ok) as [st Hl];
    [rewrite Hacc; constructor|].
  destruct (loop_events _ _ _ _ initial_ok Hl) as (_ & Hc & Hlo & Hhi).
  unfold events in Hc, Hlo, Hhi. rewrite Hacc in Hc, Hlo, Hhi.
  cbn in Hc, Hlo, Hhi.
  assert (Hrange : observed_range st = (0, 0))
    by (unfold observed_range; now rewrite Hlo).
  unfold parse_rows. rewrite Hl. cbn. now rewrite Hrange, Hc.
Qed.

(** X16: when the arguments are read to their end, the file exists and
    is read to its end, and no row passes the endpoint filter, [main]
    raises nothing and draws nothing: it prints the notice that no
    packets were found for the address, naming the port when one was
    asked for. *)
Theorem main_no_packets (args : list string) o text (rows : list row) :
  parse_args args defaults = inl o ->
  path_exists (csv_path o) = true ->
  path_open (csv_path o) = Some text ->
  csv_reader (_detect_delimiter (Some text)) text = (rows, None) ->
  accepted (target_ip o) initial rows = [] ->
  main args =
  Return [Print (no_data_notice (target_ip o) (port_filter o))].
Proof.
  intros Hargs Hex Hopen Hr Hacc. unfold main.
  rewrite Hargs, Hex. cbn [negb]. unfold parse_csv. rewrite Hopen, Hr.
  rewrite (parse_rows_nothing_accepted _ _ Hacc). cbn.
  unfold plot_counts. rewrite map_to_list_empty.
  now destruct (port_filter o).
Qed.

End Main.

(** ** The further properties on the example inputs *)

#[local] Existing Instance Files.files.

(** A whole run: the capture with the two packets, plotted for the
    address of the target. *)
Example main_plots_capture :
  main ["capture.csv"; "--ip"; "1.2.3.4"] =
  Return [Subplots; Step [100; 101; 102] [1; 0; 1] "port 1234";
          SetTitle "Packets/sec for 1.2.3.4:1234"; SetYLabel "pps";
          SetXLabel "seconds"; Grid; Legend; TightLayout; Show].
Proof. vm_compute. reflexivity. Qed.

Lemma table_keys_are_target_witness :
  let c : count_table := {[ ("1.2.3.4", 1234) := {[ 100 := 1; 102 := 1 ]} ]} in
  parse_csv (Some two_packets_text) "1.2.3.4" = Return (c, 100, 102) /\
  (forall k, is_Some (c !! k) -> fst k = "1.2.3.4") /\
  (forall k1 k2, is_Some (c !! k1) -> is_Some (c !! k2) ->
                 snd k1 = snd k2 -> k1 = k2).
Proof.
  intros c.
  assert (H1 : parse_csv (Some two_packets_text) "1.2.3.4" =
               Return (c, 100, 102)) by (vm_compute; reflexivity).
  split; [exact H1|].
  exact (table_keys_are_target (Some two_packets_text) "1.2.3.4" c 100 102 H1).
Defined.

Lemma count_is_number_of_packets_witness :
  let c : count_table := {[ ("1.2.3.4", 1234) := {[ 100 := 1; 102 := 1 ]} ]} in
  parse_csv (Some two_packets_text) "1.2.3.4" = Return (c, 100, 102) /\
  exists text (rows : list row),
    Some two_packets_text = Some text /\
    csv_reader (_detect_delimiter (Some two_packets_text)) text = (rows, None) /\
    length (events "1.2.3.4" initial rows) =
      length (accepted "1.2.3.4" initial rows) /\
    forall k s, count_at c k s = occurrences (events "1.2.3.4" initial rows) k s.
Proof.
  intros c.
  assert (H1 : parse_csv (Some two_packets_text) "1.2.3.4" =
               Return (c, 100, 102)) by (vm_compute; reflexivity).
  split; [exact H1|].
  exact (count_is_number_of_packets (Some two_packets_text) "1.2.3.4"
           c 100 102 H1).
Defined.

Lemma table_counts_positive_witness :
  let c : count_table := {[ ("1.2.3.4", 1234) := {[ 100 := 1; 102 := 1 ]} ]} in
  let inner : gmap Z Z := {[ 100 := 1; 102 := 1 ]} in
  parse_csv (Some two_packets_text) "1.2.3.4" = Return (c, 100, 102) /\
  c !! ("1.2.3.4", 1234) = Some inner /\
  inner <> ∅ /\ forall s v, inner !! s = Some v -> 1 <= v.
Proof.
  intros c inner.
  assert (H1 : parse_csv (Some two_packets_text) "1.2.3.4" =
               Return (c, 100, 102)) by (vm_compute; reflexivity).
  assert (H2 : c !! ("1.2.3.4", 1234) = Some inner)
    by (vm_compute; reflexivity).
  split; [exact H1|]. split; [exact H2|].
  exact (table_counts_positive (Some two_packets_text) "1.2.3.4" c 100 102 H1
           ("1.2.3.4", 1234) inner H2).
Defined.

Lemma pass_only_grows_witness :
  let k : key := ("1.2.3.4", 1234) in
  let h := header_names tshark_header in
  let st1 := {| header := Some h; mapping := Some natural;
                counts := {[ k := {[ 100 := 1 ]} ]};
                min_sec := Some 100; max_sec := Some 100 |} in
  let st2 := {| header := Some h; mapping := Some natural;
                counts := {[ k := {[ 100 := 1; 102 := 1 ]} ]};
                min_sec := Some 100; max_sec := Some 102 |} in
  loop "1.2.3.4" initial [tshark_header; natural_row] = Return st1 /\
  loop "1.2.3.4" initial ([tshark_header; natural_row] ++ [later_row])
    = Return st2 /\
  (forall k s, count_at (counts st1) k s <= count_at (counts st2) k s) /\
  (forall lo1, min_sec st1 = Some lo1 ->
               exists lo2, min_sec st2 = Some lo2 /\ lo2 <= lo1) /\
  (forall hi1, max_sec st1 = Some hi1 ->
               exists hi2, max_sec st2 = Some hi2 /\ hi1 <= hi2).
Proof.
  intros k h st1 st2.
  assert (H1 : loop "1.2.3.4" initial [tshark_header; natural_row]
               = Return st1) by (vm_compute; reflexivity).
  assert (H2 : loop "1.2.3.4" initial
                 ([tshark_header; natural_row] ++ [later_row]) = Return st2)
    by (vm_compute; reflexivity).
  split; [exact H1|]. split; [exact H2|].
  exact (pass_only_grows "1.2.3.4" [tshark_header; natural_row] [later_row]
           st1 st2 H1 H2).
Defined.

Lemma nonfinite_timestamp_raises_witness :
  let st := decided (header_names tshark_header) natural initial in
  let k : key := ("1.2.3.4", 1234) in
  loop "1.2.3.4" initial [tshark_header] = Return st /\
  passes "1.2.3.4" st nan_row = Some (k, S754_nan) /\
  ~ finite S754_nan /\
  loop "1.2.3.4" initial ([tshark_header] ++ nan_row :: [natural_row])
    = Raise ValueError /\
  forall text failure,
    csv_reader (_detect_delimiter (Some text)) text
      = (([tshark_header] ++ nan_row :: [natural_row])%list, failure) ->
    parse_csv (Some text) "1.2.3.4" = Raise ValueError.
Proof.
  intros st k.
  assert (H1 : loop "1.2.3.4" initial [tshark_header] = Return st)
    by reflexivity.
  assert (H2 : passes "1.2.3.4" st nan_row = Some (k, S754_nan))
    by (vm_compute; reflexivity).
  assert (H3 : ~ finite S754_nan) by (intros H; exact H).
  split; [exact H1|]. split; [exact H2|]. split; [exact H3|].
  exact (nonfinite_timestamp_raises "1.2.3.4" [tshark_header] st nan_row
           [natural_row] k S754_nan H1 H2 H3).
Defined.

Lemma data_rows_commute_witness :
  let k : key := ("1.2.3.4", 1234) in
  let h := header_names tshark_header in
  let st := decided h natural initial in
  let st' := {| header := Some h; mapping := Some natural;
                counts := {[ k := {[ 100 := 1; 102 := 1 ]} ]};
                min_sec := Some 100; max_sec := Some 102 |} in
  is_Some (header st) /\ is_Some (mapping st) /\
  [natural_row; later_row] ≡ₚ [later_row; natural_row] /\
  loop "1.2.3.4" st [natural_row; later_row] = Return st' /\
  loop "1.2.3.4" st [later_row; natural_row] = Return st'.
Proof.
  intros k h st st'.
  assert (H1 : is_Some (header st)) by (eexists; reflexivity).
  assert (H2 : is_Some (mapping st)) by (eexists; reflexivity).
  assert (H3 : [natural_row; later_row] ≡ₚ [later_row; natural_row])
    by apply perm_swap.
  assert (H4 : loop "1.2.3.4" st [natural_row; later_row] = Return st')
    by (vm_compute; reflexivity).
  split; [exact H1|]. split; [exact H2|]. split; [exact H3|].
  split; [exact H4|].
  exact (data_rows_commute "1.2.3.4" st [natural_row; later_row]
           [later_row; natural_row] st' H1 H2 H3 H4).
Defined.

Lemma detect_delimiter_tab_needs_tab_witness :
  let text := "100.0,1234,80,1.2.3.4,5.6.7.8" in
  Str.contains Char.tab text = false /\
  _detect_delimiter (Some text) = Char.comma.
Proof.
  intros text.
  assert (H1 : Str.contains Char.tab text = false) by reflexivity.
  split; [exact H1|].
  exact (proj2 (detect_delimiter_tab_needs_tab (Some text)) text eq_refl H1).
Defined.

Lemma build_series_split_witness :
  let inner : gmap Z Z := {[ 100 := 1; 102 := 1 ]} in
  100 - 1 <= 100 <= 102 /\
  build_series inner 100 102 =
  ((fst (build_series inner 100 100) ++
    fst (build_series inner (100 + 1) 102))%list,
   (snd (build_series inner 100 100) ++
    snd (build_series inner (100 + 1) 102))%list).
Proof.
  intros inner.
  assert (H1 : 100 - 1 <= 100 <= 102) by lia.
  split; [exact H1|].
  exact (build_series_split inner 100 100 102 H1).
Defined.

Lemma series_round_trip_witness :
  let c : count_table := {[ ("1.2.3.4", 1234) := {[ 100 := 1; 102 := 1 ]} ]} in
  let inner : gmap Z Z := {[ 100 := 1; 102 := 1 ]} in
  parse_csv (Some two_packets_text) "1.2.3.4" = Return (c, 100, 102) /\
  c !! ("1.2.3.4", 1234) = Some inner /\
  list_to_map
    (filter (fun p : Z * Z => snd p <> 0)
       (zip (fst (build_series inner 100 102))
            (snd (build_series inner 100 102))))
  = inner.
Proof.
  intros c inner.
  assert (H1 : parse_csv (Some two_packets_text) "1.2.3.4" =
               Return (c, 100, 102)) by (vm_compute; reflexivity).
  assert (H2 : c !! ("1.2.3.4", 1234) = Some inner)
    by (vm_compute; reflexivity).
  split; [exact H1|]. split; [exact H2|].
  exact (series_round_trip (Some two_packets_text) "1.2.3.4" c 100 102
           ("1.2.3.4", 1234) inner H1 H2).
Defined.

Lemma plot_draws_sorted_series_witness :
  NoDup two_port_items.*1 /\
  exists drawn : items,
    drawn ≡ₚ select_port None two_port_items /\
    Sorted port_le drawn.*1 /\
    steps (plot_counts two_port_items 100 101 "1.2.3.4" None None) =
    map (fun kv => series_of 100 101 (fst kv) (snd kv)) drawn.
Proof.
  assert (H1 : NoDup two_port_items.*1).
  { apply (bool_decide_unpack _). vm_compute. exact I. }
  split; [exact H1|].
  exact (plot_draws_sorted_series two_port_items 100 101 "1.2.3.4" None None H1).
Defined.

Lemma plot_order_irrelevant_witness :
  two_port_items ≡ₚ two_port_items_reversed /\
  NoDup two_port_items.*1.*2 /\
  plot_counts two_port_items 100 101 "1.2.3.4" None None =
  plot_counts two_port_items_reversed 100 101 "1.2.3.4" None None.
Proof.
  assert (H1 : two_port_items ≡ₚ two_port_items_reversed) by apply perm_swap.
  assert (H2 : NoDup two_port_items.*1.*2).
  { apply (bool_decide_unpack _). vm_compute. exact I. }
  split; [exact H1|]. split; [exact H2|].
  exact (plot_order_irrelevant two_port_items two_port_items_reversed
           100 101 "1.2.3.4" None None H1 H2).
Defined.

Lemma plot_one_port_witness :
  let c : count_table := {[ ("1.2.3.4", 1234) := {[ 100 := 1; 102 := 1 ]} ]} in
  let inner : gmap Z Z := {[ 100 := 1; 102 := 1 ]} in
  parse_csv (Some two_packets_text) "1.2.3.4" = Return (c, 100, 102) /\
  plot_counts (map_to_list c) 100 102 "1.2.3.4" None (Some 1234) =
  [Subplots;
   Step (fst (build_series inner 100 102)) (snd (build_series inner 100 102))
        ("port " ++ str_int 1234);
   SetTitle ("Packets/sec for " ++ "1.2.3.4" ++ ":" ++ str_int 1234);
   SetYLabel "pps"; SetXLabel "seconds"; Grid; Legend; TightLayout; Show] /\
  plot_counts (map_to_list c) 100 102 "1.2.3.4" None (Some 80) =
  [Print ("No packets found for " ++ "1.2.3.4" ++ " on port " ++ str_int 80
          ++ ". Nothing to plot.")].
Proof.
  intros c inner.
  assert (H1 : parse_csv (Some two_packets_text) "1.2.3.4" =
               Return (c, 100, 102)) by (vm_compute; reflexivity).
  assert (H2 : c !! ("1.2.3.4", 1234) = Some inner)
    by (vm_compute; reflexivity).
  assert (H3 : c !! ("1.2.3.4", 80) = None) by (vm_compute; reflexivity).
  split; [exact H1|]. split.
  - rewrite (plot_one_port (Some two_packets_text) "1.2.3.4" c 100 102
               1234 None H1), H2. reflexivity.
  - rewrite (plot_one_port (Some two_packets_text) "1.2.3.4" c 100 102
               80 None H1), H3. reflexivity.
Defined.

Lemma parse_args_app_witness :
  let o' := {| target_ip := "10.0.0.1"; csv_path := "capture.csv";
               save_path := None; port_filter := None |} in
  parse_args ["--ip"; "10.0.0.1"; "capture.csv"] defaults = inl o' /\
  (forall rest, parse_args (["--ip"; "10.0.0.1"; "capture.csv"] ++ rest) defaults
                = parse_args rest o') /\
  (forall v, parse_args (["--ip"; "10.0.0.1"; "capture.csv"] ++ ["--ip"; v])
               defaults =
             inl {| target_ip := v; csv_path := "capture.csv";
                    save_path := None; port_filter := None |}).
Proof.
  intros o'.
  assert (H1 : parse_args ["--ip"; "10.0.0.1"; "capture.csv"] defaults = inl o')
    by reflexivity.
  split; [exact H1|].
  exact (parse_args_app ["--ip"; "10.0.0.1"; "capture.csv"] defaults o' H1).
Defined.



Lemma main_no_packets_witness :
  let args := ["quiet.csv"; "--ip"; "1.2.3.4"; "--port"; "80"] in
  let o := {| target_ip := "1.2.3.4"; csv_path := "quiet.csv";
              save_path := None; port_filter := Some 80 |} in
  parse_args args defaults = inl o /\
  path_exists (csv_path o) = true /\
  path_open (csv_path o) = Some foreign_text /\
  csv_reader (_detect_delimiter (Some foreign_text)) foreign_text
    = ([tshark_header; foreign_row], None) /\
  accepted (target_ip o) initial [tshark_header; foreign_row] = [] /\
  main args =
  Return [Print (no_data_notice "1.2.3.4" (Some 80))].
Proof.
  intros args o.
  assert (H1 : parse_args args defaults = inl o) by (vm_compute; reflexivity).
  assert (H2 : path_exists (csv_path o) = true) by reflexivity.
  assert (H3 : path_open (csv_path o) = Some foreign_text) by reflexivity.
  assert (H4 : csv_reader (_detect_delimiter (Some foreign_text)) foreign_text
               = ([tshark_header; foreign_row], None))
    by (vm_compute; reflexivity).
  assert (H5 : accepted (target_ip o) initial [tshark_header; foreign_row] = [])
    by (vm_compute; reflexivity).
  split; [exact H1|]. split; [exact H2|]. split; [exact H3|].
  split; [exact H4|]. split; [exact H5|].
  exact (main_no_packets args o foreign_text [tshark_header; foreign_row]
           H1 H2 H3 H4 H5).
Defined.
